(** * PIN service of the desktop client: lockout state machine and PIN vault

    Shallow embedding of [src/main/modules/system/PinService.ts].

    - [Js]: the fragment of JavaScript values the service manipulates
      (parsed JSON, truthiness, [typeof], property reads, object spread).
    - [CONFIG]: the configuration constants.
    - [LockoutManager]: the in-memory lockout state machine.
    - [Platform]: the Node/Electron primitives the service calls
      ([safeStorage], [JSON], base64, [pbkdf2Sync], AES-256-GCM, UTF-8).
    - [PinService]: creation, verification and payload encryption.
    - [Reference]: a small executable platform, to run the service.
    - [Caller], [Sample]: a retrying caller and concrete data.
    The facts about the lockout manager and the service follow.

    Modelling conventions.
    - JavaScript numbers that the service stores are millisecond timestamps
      and small counters; they are modelled as [Z].
    - Every read of [Date.now()] is an explicit argument of the operation
      that performs it.
    - Every call of [randomBytes] is an explicit argument holding the bytes
      that were drawn.
    - A [Buffer] is a list of bytes.  Overwriting a buffer with zeros after
      its last use does not change any returned value and is not modelled.
    - A JavaScript string is a [string] holding its text: an ASCII character
      is one character of the [string], any other character the bytes of
      its UTF-8 form, and an unpaired surrogate the three bytes [ED A0..BF
      80..BF] of its code point.
    - A lockout snapshot is read at the type [LockoutState] declares.  The
      one property [#isValidLockoutState] does not check, [lockedUntil], is
      read as [null] when it is not a number, where JavaScript would coerce
      the value in a comparison; [LockoutManager.lockedUntilTyped] tells
      the snapshots on which the two readings agree. *)

From Stdlib Require Import ZArith List String Ascii Bool Lia.
From Stdlib Require Import Strings.Byte DecimalString.
Import ListNotations.
Open Scope string_scope.
Open Scope Z_scope.
Set Warnings "-register-all".

(* ========================================================================= *)
(** ** JavaScript values                                                      *)
(* ========================================================================= *)

Module Js.

(** The result of [JSON.parse]. Objects are association lists whose keys
    are pairwise distinct, in insertion order. *)
Inductive json : Type :=
| JNull
| JBool (b : bool)
| JNum (z : Z)
| JStr (s : string)
| JArr (items : list json)
| JObj (fields : list (string * json)).

(** [typeof v === 'object' && v !== null] *)
Definition isNonNullObject (v : json) : bool :=
  match v with
  | JArr _ | JObj _ => true
  | _ => false
  end.

(** [typeof v === 'number'] for an optional property ([None] is
    [undefined]). *)
Definition isNumber (v : option json) : bool :=
  match v with
  | Some (JNum _) => true
  | _ => false
  end.

(** [typeof v === 'string'] *)
Definition isString (v : option json) : bool :=
  match v with
  | Some (JStr _) => true
  | _ => false
  end.

(** Truthiness of a number: every number but zero. *)
Definition truthyNum (z : Z) : bool := negb (z =? 0).

(** Truthiness of a [number | null]. *)
Definition truthyOptNum (o : option Z) : bool :=
  match o with
  | Some z => truthyNum z
  | None => false
  end.

(** Truthiness of a string: every string but the empty one. *)
Definition truthyStr (s : string) : bool :=
  match s with
  | EmptyString => false
  | String _ _ => true
  end.

(** Truthiness of a possibly [undefined] value. *)
Definition truthy (v : option json) : bool :=
  match v with
  | None => false
  | Some JNull => false
  | Some (JBool b) => b
  | Some (JNum z) => truthyNum z
  | Some (JStr s) => truthyStr s
  | Some (JArr _) => true
  | Some (JObj _) => true
  end.

Fixpoint lookup (k : string) (fs : list (string * json)) : option json :=
  match fs with
  | [] => None
  | (k', v) :: rest => if String.eqb k k' then Some v else lookup k rest
  end.

(** Property read [v.k]; [None] is [undefined].  The properties read by
    the service are not defined on arrays. *)
Definition get (v : json) (k : string) : option json :=
  match v with
  | JObj fs => lookup k fs
  | _ => None
  end.

(** Assignment of one property: an existing key keeps its position, a
    new key goes last. *)
Fixpoint assign (k : string) (v : json) (fs : list (string * json))
  : list (string * json) :=
  match fs with
  | [] => [(k, v)]
  | (k', v') :: rest =>
      if String.eqb k k' then (k', v) :: rest else (k', v') :: assign k v rest
  end.

(** Object spread with one overriding property, [{ ...o, k: v }].
    Spreading an array would copy its indices; the service only spreads
    values that passed an object check, and arrays carry none of the
    properties it reads afterwards. *)
Definition spreadWith (o : json) (k : string) (v : json) : json :=
  match o with
  | JObj fs => JObj (assign k v fs)
  | _ => JObj [(k, v)]
  end.

(** [Math.ceil(x / d)] for integers [x] and a positive integer [d]. *)
Definition ceilDiv (x d : Z) : Z := - ((- x) / d).

End Js.

(* ========================================================================= *)
(** ** Configuration                                                          *)
(* ========================================================================= *)

Module CONFIG.
Module salt.
Definition length : Z := 32.
End salt.
Module hash.
Definition iterations : Z := 350000.
Definition keyLength : Z := 64.
Definition digest : string := "sha512".
End hash.
Module encryption.
Definition keyLength : Z := 32.
Definition ivLength : Z := 16.
Definition authTagLength : Z := 16.
Definition iterations : Z := 50000.
Definition algorithm : string := "aes-256-gcm".
End encryption.
Module rateLimit.
Definition maxAttempts : Z := 5.
Definition baseLockoutMs : Z := 5 * 60 * 1000.
Definition attemptResetMs : Z := 15 * 60 * 1000.
Definition maxLockoutMultiplier : Z := 12.
End rateLimit.
End CONFIG.

(* ========================================================================= *)
(** ** Lockout manager                                                        *)
(* ========================================================================= *)

Record LockoutState : Type := mkLockoutState {
  count : Z;
  lastAttempt : Z;
  lockedUntil : option Z;
  lockoutCount : Z
}.

(** Return value of [recordFailure]. *)
Record FailureResult : Type := mkFailureResult {
  failLocked : bool;
  failRemainingAttempts : Z;
  failLockoutSeconds : option Z
}.

(** Return value of [getStatus] and [getLockoutStatus]. *)
Record LockoutStatus : Type := mkLockoutStatus {
  statusLocked : bool;
  statusLockoutSeconds : option Z;
  statusRemainingAttempts : Z
}.

Module LockoutManager.
Import Js CONFIG.

Definition createDefaultState : LockoutState :=
  {| count := 0; lastAttempt := 0; lockedUntil := None; lockoutCount := 0 |}.

Definition calculateLockoutDuration (st : LockoutState) : Z :=
  let multiplier :=
    Z.min (lockoutCount st + 1) rateLimit.maxLockoutMultiplier in
  rateLimit.baseLockoutMs * multiplier.

Definition isValidLockoutState (lockout : json) : bool :=
  isNonNullObject lockout
  && isNumber (get lockout "count")
  && isNumber (get lockout "lastAttempt")
  && isNumber (get lockout "lockoutCount").

(** A numeric property of a validated snapshot. *)
Definition numberOf (v : option json) : Z :=
  match v with
  | Some (JNum z) => z
  | _ => 0
  end.

(** The [lockedUntil] property is declared [number | null] and is not
    validated.  It is read at that type: a value that is not a number is
    read as [null]. *)
Definition lockedUntilOf (v : option json) : option Z :=
  match v with
  | Some (JNum z) => Some z
  | _ => None
  end.

(** Whether [lockedUntil] holds what its type allows (a number or [null])
    or is missing, so that [lockedUntilOf] reads it as JavaScript does. *)
Definition lockedUntilTyped (lockout : option json) : bool :=
  match lockout with
  | Some l =>
      match get l "lockedUntil" with
      | None | Some JNull | Some (JNum _) => true
      | Some _ => false
      end
  | None => true
  end.

(** The snapshot [{ ...lockout }] of a validated object, restricted to the
    four properties of [LockoutState]. *)
Definition ofJson (lockout : json) : LockoutState :=
  {| count := numberOf (get lockout "count");
     lastAttempt := numberOf (get lockout "lastAttempt");
     lockedUntil := lockedUntilOf (get lockout "lockedUntil");
     lockoutCount := numberOf (get lockout "lockoutCount") |}.

(** [loadFromPinData(lockout)]; [now] is the clock read inside it.  The
    previous in-memory state is overwritten in every branch. *)
Definition loadFromPinData (now : Z) (lockout : option json) : LockoutState :=
  match lockout with
  | None => createDefaultState
  | Some l =>
      if negb (truthy lockout) || negb (isValidLockoutState l)
      then createDefaultState
      else
        let st := ofJson l in
        if truthyOptNum (lockedUntil st)
           && (match lockedUntil st with
               | Some u => u <=? now
               | None => false
               end)
        then {| count := 0;
                lastAttempt := 0;
                lockedUntil := None;
                lockoutCount := lockoutCount st |}
        else if truthyNum (lastAttempt st)
                && (rateLimit.attemptResetMs <? now - lastAttempt st)
        then createDefaultState
        else st
  end.

Definition checkAndUpdateExpiry (now : Z) (st : LockoutState) : LockoutState :=
  let st1 :=
    if truthyOptNum (lockedUntil st)
       && (match lockedUntil st with
           | Some u => u <=? now
           | None => false
           end)
    then {| count := 0;
            lastAttempt := lastAttempt st;
            lockedUntil := None;
            lockoutCount := lockoutCount st |}
    else st in
  if truthyNum (lastAttempt st1)
     && (rateLimit.attemptResetMs <? now - lastAttempt st1)
  then createDefaultState
  else st1.

(** [Some seconds] is [{ locked: true, seconds }], [None] is
    [{ locked: false }]. *)
Definition isLocked (now : Z) (st : LockoutState) : option Z :=
  match lockedUntil st with
  | Some u =>
      if truthyNum u && (now <? u)
      then Some (ceilDiv (u - now) 1000)
      else None
  | None => None
  end.

Definition recordFailure (now : Z) (st : LockoutState)
  : FailureResult * LockoutState :=
  let st1 := {| count := count st + 1;
                lastAttempt := now;
                lockedUntil := lockedUntil st;
                lockoutCount := lockoutCount st |} in
  let remainingAttempts := rateLimit.maxAttempts - count st1 in
  if rateLimit.maxAttempts <=? count st1
  then
    let st2 := {| count := count st1;
                  lastAttempt := lastAttempt st1;
                  lockedUntil := lockedUntil st1;
                  lockoutCount :=
                    Z.min (lockoutCount st1 + 1)
                          rateLimit.maxLockoutMultiplier |} in
    let lockoutDuration := calculateLockoutDuration st2 in
    let st3 := {| count := count st2;
                  lastAttempt := lastAttempt st2;
                  lockedUntil := Some (now + lockoutDuration);
                  lockoutCount := lockoutCount st2 |} in
    ({| failLocked := true;
        failRemainingAttempts := 0;
        failLockoutSeconds := Some (ceilDiv lockoutDuration 1000) |},
     st3)
  else
    ({| failLocked := false;
        failRemainingAttempts := remainingAttempts;
        failLockoutSeconds := None |},
     st1).

Definition recordSuccess (st : LockoutState) : LockoutState :=
  createDefaultState.

Definition applyMaxLockout (now : Z) (st : LockoutState) : Z * LockoutState :=
  let lockoutDuration :=
    rateLimit.baseLockoutMs * rateLimit.maxLockoutMultiplier in
  (ceilDiv lockoutDuration 1000,
   {| count := rateLimit.maxAttempts;
      lastAttempt := now;
      lockedUntil := Some (now + lockoutDuration);
      lockoutCount := rateLimit.maxLockoutMultiplier |}).

Definition reset (st : LockoutState) : LockoutState := createDefaultState.

(** [getStatus()]; [now] is the clock read inside [isLocked()]. *)
Definition getStatus (now : Z) (st : LockoutState) : LockoutStatus :=
  match isLocked now st with
  | Some seconds =>
      {| statusLocked := true;
         statusLockoutSeconds := Some seconds;
         statusRemainingAttempts := 0 |}
  | None =>
      {| statusLocked := false;
         statusLockoutSeconds := None;
         statusRemainingAttempts := rateLimit.maxAttempts - count st |}
  end.

Definition serialize (st : LockoutState) : LockoutState := st.

(** The JSON form of a serialized state, as [JSON.stringify] sees it. *)
Definition toJson (st : LockoutState) : json :=
  JObj [("count", JNum (count st));
        ("lastAttempt", JNum (lastAttempt st));
        ("lockedUntil",
          match lockedUntil st with
          | Some u => JNum u
          | None => JNull
          end);
        ("lockoutCount", JNum (lockoutCount st))].

End LockoutManager.

(* ========================================================================= *)
(** ** Platform primitives                                                    *)
(* ========================================================================= *)

Definition Buffer : Type := list byte.

(** How a call ends: with a returned value or with an exception that
    escapes to the caller. *)
Inductive Completion (T : Type) : Type :=
| Returned (value : T)
| Threw (exn : string).
Arguments Returned {T} value.
Arguments Threw {T} exn.

(** The Node and Electron primitives the service calls.  A primitive that
    can throw returns [None] when it does. *)
Class Platform : Type := {
  (** [safeStorage.isEncryptionAvailable()] *)
  isEncryptionAvailable : bool;
  (** [safeStorage.encryptString(text)] *)
  encryptString : string -> option Buffer;
  (** [safeStorage.decryptString(buffer)] *)
  decryptString : Buffer -> option string;
  (** [JSON.stringify(value)] *)
  JSON_stringify : Js.json -> string;
  (** [JSON.parse(text)] *)
  JSON_parse : string -> option Js.json;
  (** [buffer.toString('base64')] *)
  toBase64 : Buffer -> string;
  (** [Buffer.from(text, 'base64')] *)
  fromBase64 : string -> Buffer;
  (** [Buffer.from(value, 'base64')] for an array or an object: the bytes
      of an array or of an array-like object, and an exception for an
      object [Buffer.from] cannot read *)
  bufferFromObject : Js.json -> Completion Buffer;
  (** the bytes [cipher.update(text, 'utf8')] feeds to the cipher *)
  utf8Encode : string -> Buffer;
  (** [buffer.toString('utf8')] *)
  utf8Decode : Buffer -> string;
  (** [pbkdf2Sync(password, salt, iterations, keylen, digest)] *)
  pbkdf2Sync : string -> Buffer -> Z -> Z -> string -> Buffer;
  (** [createCipheriv(algorithm, key, iv)] followed by [update], [final]
      and [getAuthTag]: the ciphertext and the authentication tag *)
  cipherSeal : string -> Buffer -> Buffer -> Buffer -> option (Buffer * Buffer);
  (** [createDecipheriv(algorithm, key, iv)] followed by [setAuthTag],
      [update] and [final]; arguments: algorithm, key, iv, tag, ciphertext *)
  cipherOpen : string -> Buffer -> Buffer -> Buffer -> Buffer -> option Buffer
}.

Fixpoint bufferEqb (a b : Buffer) : bool :=
  match a, b with
  | [], [] => true
  | x :: a', y :: b' => Byte.eqb x y && bufferEqb a' b'
  | _, _ => false
  end.

(** [crypto.timingSafeEqual(a, b)]: throws a [RangeError] when the byte
    lengths differ, otherwise compares the contents. *)
Definition timingSafeEqual (a b : Buffer) : option bool :=
  if (List.length a =? List.length b)%nat then Some (bufferEqb a b) else None.

(** [buffer.subarray(start, end)] with both bounds clamped to the length. *)
Definition subarray (b : Buffer) (lo hi : Z) : Buffer :=
  firstn (Z.to_nat (hi - lo)) (skipn (Z.to_nat lo) b).

(** [buffer.subarray(start)] *)
Definition subarrayFrom (b : Buffer) (lo : Z) : Buffer :=
  skipn (Z.to_nat lo) b.

(* ========================================================================= *)
(** ** PIN service                                                            *)
(* ========================================================================= *)

Inductive PinOperationResult (T : Type) : Type :=
| Ok (value : T)
| Err (error : string).
Arguments Ok {T} value.
Arguments Err {T} error.

Definition isOk {T : Type} (r : PinOperationResult T) : bool :=
  match r with
  | Ok _ => true
  | Err _ => false
  end.

Record VerifyPinResult : Type := mkVerifyPinResult {
  success : bool;
  locked : bool;
  remainingAttempts : Z;
  lockoutSeconds : option Z;
  updatedEncryptedData : option string
}.

(** The private fields of the service object. *)
Record PinServiceState : Type := mkPinServiceState {
  isPinVerified : bool;
  derivedEncryptionKey : option Buffer;
  lockoutManager : LockoutState
}.

Definition withVerified (v : bool) (s : PinServiceState) : PinServiceState :=
  {| isPinVerified := v;
     derivedEncryptionKey := derivedEncryptionKey s;
     lockoutManager := lockoutManager s |}.

Definition withKey (k : option Buffer) (s : PinServiceState) : PinServiceState :=
  {| isPinVerified := isPinVerified s;
     derivedEncryptionKey := k;
     lockoutManager := lockoutManager s |}.

Definition withLockout (l : LockoutState) (s : PinServiceState) : PinServiceState :=
  {| isPinVerified := isPinVerified s;
     derivedEncryptionKey := derivedEncryptionKey s;
     lockoutManager := l |}.

Module PinService.
Import Js CONFIG.

Section WithPlatform.
Context {P : Platform}.

(** The constructor. *)
Definition new : PinServiceState :=
  {| isPinVerified := false;
     derivedEncryptionKey := None;
     lockoutManager := LockoutManager.createDefaultState |}.

Definition clearDerivedKey (s : PinServiceState) : PinServiceState :=
  match derivedEncryptionKey s with
  | Some _ => withKey None s
  | None => s
  end.

Definition initialize (s : PinServiceState) : PinServiceState :=
  let s1 := withVerified false s in
  let s2 := clearDerivedKey s1 in
  withLockout (LockoutManager.reset (lockoutManager s2)) s2.

Definition isDigit (c : ascii) : bool :=
  ((48 <=? nat_of_ascii c) && (nat_of_ascii c <=? 57))%nat.

(** Matching of [\d{n}$] at the current position. *)
Fixpoint digitsToEnd (n : nat) (s : string) : bool :=
  match n, s with
  | O, EmptyString => true
  | S n', String c rest => isDigit c && digitsToEnd n' rest
  | _, _ => false
  end.

(** [/^\d{6}$/.test(pin)] on a string. *)
Definition validatePinFormat (pin : string) : bool := digitsToEnd 6 pin.

(** [typeof v === 'string' && v.length > 0] *)
Definition isNonEmptyString (v : option json) : bool :=
  match v with
  | Some (JStr s) => (0 <? String.length s)%nat
  | _ => false
  end.

Definition isValidPinData (data : json) : bool :=
  isNonNullObject data
  && isString (get data "hash")
  && isString (get data "salt")
  && isNonEmptyString (get data "hash")
  && isNonEmptyString (get data "salt").

(** Reads of the properties of a validated [PinData].  [hash] and [salt]
    are strings by validation.  [encryptionSalt] and [lockout] are not
    validated and are read as they are; [None] is [undefined]. *)
Definition stringOf (v : option json) : string :=
  match v with
  | Some (JStr s) => s
  | _ => EmptyString
  end.

Definition pinHash (pinData : json) : string := stringOf (get pinData "hash").
Definition pinSalt (pinData : json) : string := stringOf (get pinData "salt").
Definition pinEncryptionSalt (pinData : json) : option json :=
  get pinData "encryptionSalt".
Definition pinLockout (pinData : json) : option json := get pinData "lockout".

Definition decryptPinData (encryptedData : string) : PinOperationResult json :=
  if negb (truthyStr encryptedData)
  then Err "Invalid encrypted data"
  else if negb isEncryptionAvailable
  then Err "SafeStorage not available"
  else
    let encryptedBuffer := fromBase64 encryptedData in
    match decryptString encryptedBuffer with
    | None => Err "Failed to decrypt PIN data"
    | Some decryptedJson =>
        match JSON_parse decryptedJson with
        | None => Err "Failed to decrypt PIN data"
        | Some pinData =>
            if negb (isValidPinData pinData)
            then Err "Invalid PIN data structure"
            else Ok pinData
        end
    end.

Definition encryptPinData (pinData : json) : PinOperationResult string :=
  if negb isEncryptionAvailable
  then Err "SafeStorage not available"
  else
    let jsonData := JSON_stringify pinData in
    match encryptString jsonData with
    | None => Err "Failed to encrypt PIN data"
    | Some encrypted => Ok (toBase64 encrypted)
    end.

(** [Buffer.from(value, 'base64')] on a parsed value: a string is decoded,
    an array or an object is left to the platform, and any other value is
    refused with a [TypeError]. *)
Definition bufferFrom (value : json) : Completion Buffer :=
  match value with
  | JStr text => Returned (fromBase64 text)
  | JArr _ | JObj _ => bufferFromObject value
  | JNull | JBool _ | JNum _ => Threw "TypeError"
  end.

Definition hashPin (pin : string) (salt : Buffer) : Buffer :=
  pbkdf2Sync pin salt hash.iterations hash.keyLength hash.digest.

Definition deriveEncryptionKey (pin : string) (salt : Buffer) : Buffer :=
  pbkdf2Sync pin salt encryption.iterations encryption.keyLength "sha256".

Definition setDerivedKey (pin : string) (salt : Buffer) (s : PinServiceState)
  : PinServiceState :=
  let s1 := clearDerivedKey s in
  withKey (Some (deriveEncryptionKey pin salt)) s1.

Definition updateLockoutInPinData (pinData : json) (s : PinServiceState) : json :=
  spreadWith pinData "lockout"
    (LockoutManager.toJson (LockoutManager.serialize (lockoutManager s))).

(** The object literal [pinData] assembled by [createPinHashSafe]. *)
Definition newPinData (hashBytes salt encryptionSalt : Buffer)
                      (lockout : LockoutState) : json :=
  JObj [("hash", JStr (toBase64 hashBytes));
        ("salt", JStr (toBase64 salt));
        ("encryptionSalt", JStr (toBase64 encryptionSalt));
        ("lockout", LockoutManager.toJson lockout)].

(** [createPinHashSafe(pin)]; [salt] and [encryptionSalt] are the results
    of its two [randomBytes] calls, in that order.  No step inside its
    [try] block throws: [encryptPinData] reports its own failures. *)
Definition createPinHashSafe (salt encryptionSalt : Buffer) (pin : string)
                             (s : PinServiceState)
  : PinOperationResult string * PinServiceState :=
  if negb isEncryptionAvailable
  then (Err "SafeStorage not available", s)
  else if negb (validatePinFormat pin)
  then (Err "Invalid PIN format", s)
  else
    let hashBytes := hashPin pin salt in
    let pinData :=
      newPinData hashBytes salt encryptionSalt
        (LockoutManager.serialize (lockoutManager s)) in
    let s1 := withLockout (LockoutManager.reset (lockoutManager s)) s in
    (encryptPinData pinData, s1).

Definition createPinHash (salt encryptionSalt : Buffer) (pin : string)
                         (s : PinServiceState)
  : option string * PinServiceState :=
  match createPinHashSafe salt encryptionSalt pin s with
  | (Ok value, s1) => (Some value, s1)
  | (Err _, s1) => (None, s1)
  end.

Definition okValue (r : PinOperationResult string) : option string :=
  match r with
  | Ok value => Some value
  | Err _ => None
  end.

(** [handleSuccessfulVerification(pin, pinData)].  The lockout is reset and
    the verified flag set before [encryptionSalt] is looked at; when
    [Buffer.from] refuses a truthy [encryptionSalt], its exception leaves
    the method, and [verifyPin], at that point. *)
Definition handleSuccessfulVerification (pin : string) (pinData : json)
                                        (s : PinServiceState)
  : Completion VerifyPinResult * PinServiceState :=
  let s1 := withLockout (LockoutManager.recordSuccess (lockoutManager s)) s in
  let s2 := withVerified true s1 in
  let finish (s3 : PinServiceState) :=
    let updatedPinData := updateLockoutInPinData pinData s3 in
    let encryptResult := encryptPinData updatedPinData in
    (Returned {| success := true;
                 locked := false;
                 remainingAttempts := rateLimit.maxAttempts;
                 lockoutSeconds := None;
                 updatedEncryptedData := okValue encryptResult |},
     s3) in
  match pinEncryptionSalt pinData with
  | Some value =>
      if truthy (Some value)
      then
        match bufferFrom value with
        | Returned encryptionSalt =>
            finish (setDerivedKey pin encryptionSalt s2)
        | Threw exn => (Threw exn, s2)
        end
      else finish s2
  | None => finish s2
  end.

Definition handleFailedVerification (pinData : json) (now : Z)
                                    (s : PinServiceState)
  : VerifyPinResult * PinServiceState :=
  let '(failureResult, l1) :=
    LockoutManager.recordFailure now (lockoutManager s) in
  let s1 := withLockout l1 s in
  let updatedPinData := updateLockoutInPinData pinData s1 in
  let encryptResult := encryptPinData updatedPinData in
  ({| success := false;
      locked := failLocked failureResult;
      remainingAttempts := failRemainingAttempts failureResult;
      lockoutSeconds := failLockoutSeconds failureResult;
      updatedEncryptedData := okValue encryptResult |},
   s1).

Definition performVerification (enteredPin : string) (pinData : json)
                               (now : Z) (s : PinServiceState)
  : Completion VerifyPinResult * PinServiceState :=
  let salt := fromBase64 (pinSalt pinData) in
  let storedHash := fromBase64 (pinHash pinData) in
  let enteredHash := hashPin enteredPin salt in
  match timingSafeEqual storedHash enteredHash with
  | None => (Threw "RangeError", s)
  | Some true => handleSuccessfulVerification enteredPin pinData s
  | Some false =>
      let '(r, s1) := handleFailedVerification pinData now s in
      (Returned r, s1)
  end.

(** [verifyPin(enteredPin, encryptedData)]; [now] is the clock read at its
    start and [nowLoad] the later clock read inside [loadFromPinData]. *)
Definition verifyPin (now nowLoad : Z) (enteredPin encryptedData : string)
                     (s : PinServiceState)
  : Completion VerifyPinResult * PinServiceState :=
  if negb (validatePinFormat enteredPin)
  then (Returned {| success := false;
                    locked := false;
                    remainingAttempts := rateLimit.maxAttempts;
                    lockoutSeconds := None;
                    updatedEncryptedData := None |},
        s)
  else
    match decryptPinData encryptedData with
    | Err _ =>
        let '(seconds, l1) :=
          LockoutManager.applyMaxLockout now (lockoutManager s) in
        (Returned {| success := false;
                     locked := true;
                     remainingAttempts := 0;
                     lockoutSeconds := Some seconds;
                     updatedEncryptedData := None |},
         withLockout l1 s)
    | Ok pinData =>
        let l1 := LockoutManager.loadFromPinData nowLoad (pinLockout pinData) in
        let l2 := LockoutManager.checkAndUpdateExpiry now l1 in
        let s2 := withLockout l2 s in
        match LockoutManager.isLocked now l2 with
        | Some seconds =>
            (Returned {| success := false;
                         locked := true;
                         remainingAttempts := 0;
                         lockoutSeconds := Some seconds;
                         updatedEncryptedData := None |},
             s2)
        | None => performVerification enteredPin pinData now s2
        end
    end.

Definition verifyCurrentPinForChange (now nowLoad : Z)
                                     (currentPin encryptedData : string)
                                     (s : PinServiceState)
  : Completion VerifyPinResult * PinServiceState :=
  verifyPin now nowLoad currentPin encryptedData s.

(** [getLockoutStatus(encryptedData?)]; the three clock readings are the
    ones taken inside [loadFromPinData], [checkAndUpdateExpiry()] and
    [getStatus()], in that order. *)
Definition getLockoutStatus (nowLoad nowExpiry nowStatus : Z)
                            (encryptedData : option string)
                            (s : PinServiceState)
  : LockoutStatus * PinServiceState :=
  let finish (s1 : PinServiceState) :=
    let l := LockoutManager.checkAndUpdateExpiry nowExpiry (lockoutManager s1) in
    (LockoutManager.getStatus nowStatus l, withLockout l s1) in
  match encryptedData with
  | Some data =>
      if truthyStr data
      then
        match decryptPinData data with
        | Err _ =>
            ({| statusLocked := true;
                statusLockoutSeconds :=
                  Some (ceilDiv (rateLimit.baseLockoutMs
                                 * rateLimit.maxLockoutMultiplier) 1000);
                statusRemainingAttempts := 0 |},
             s)
        | Ok pinData =>
            finish (withLockout
                      (LockoutManager.loadFromPinData nowLoad
                         (pinLockout pinData)) s)
        end
      else finish s
  | None => finish s
  end.

(** [getEncryptionSalt(encryptedPinData)]: [encryptionSalt || null], the
    property as it is when it is truthy; [None] is [null]. *)
Definition getEncryptionSalt (encryptedPinData : string) : option json :=
  match decryptPinData encryptedPinData with
  | Err _ => None
  | Ok pinData =>
      if truthy (pinEncryptionSalt pinData)
      then pinEncryptionSalt pinData
      else None
  end.

(** [encryptWithKey(data, key)]; [iv] is the result of its [randomBytes]
    call. *)
Definition encryptWithKey (iv : Buffer) (data : string) (key : Buffer)
  : option string :=
  match cipherSeal encryption.algorithm key iv (utf8Encode data) with
  | Some (encrypted, authTag) => Some (toBase64 (iv ++ authTag ++ encrypted)%list)
  | None => None
  end.

Definition decryptWithKey (encryptedData : string) (key : Buffer)
  : option string :=
  let combined := fromBase64 encryptedData in
  let iv := subarray combined 0 encryption.ivLength in
  let authTag :=
    subarray combined encryption.ivLength
             (encryption.ivLength + encryption.authTagLength) in
  let ciphertext :=
    subarrayFrom combined (encryption.ivLength + encryption.authTagLength) in
  match cipherOpen encryption.algorithm key iv authTag ciphertext with
  | Some decrypted => Some (utf8Decode decrypted)
  | None => None
  end.

(** [encryptWithPin] and [decryptWithPin]: the failures their [catch]
    would turn into [null] are already [None] in [encryptWithKey] and
    [decryptWithKey]. *)
Definition encryptWithPin (iv : Buffer) (data pin encryptionSalt : string)
  : option string :=
  let salt := fromBase64 encryptionSalt in
  let key := deriveEncryptionKey pin salt in
  encryptWithKey iv data key.

Definition decryptWithPin (encryptedData pin encryptionSalt : string)
  : option string :=
  let salt := fromBase64 encryptionSalt in
  let key := deriveEncryptionKey pin salt in
  decryptWithKey encryptedData key.

Definition encryptWithVerifiedKey (iv : Buffer) (data : string)
                                  (s : PinServiceState) : option string :=
  match derivedEncryptionKey s with
  | None => None
  | Some key => encryptWithKey iv data key
  end.

Definition decryptWithVerifiedKey (encryptedData : string)
                                  (s : PinServiceState) : option string :=
  match derivedEncryptionKey s with
  | None => None
  | Some key => decryptWithKey encryptedData key
  end.

Definition isPinCurrentlyVerified (s : PinServiceState) : bool :=
  isPinVerified s.

Definition hasEncryptionKey (s : PinServiceState) : bool :=
  match derivedEncryptionKey s with
  | Some _ => true
  | None => false
  end.

Definition markVerified (s : PinServiceState) : PinServiceState :=
  withVerified true s.

Definition clearVerification (s : PinServiceState) : PinServiceState :=
  clearDerivedKey (withVerified false s).

Definition resetAttempts (s : PinServiceState) : PinServiceState :=
  withLockout (LockoutManager.reset (lockoutManager s)) s.

End WithPlatform.
End PinService.

(* ========================================================================= *)
(** ** A small executable platform                                            *)
(* ========================================================================= *)

(** Executable stand-ins for the platform primitives, used to run the
    service on concrete inputs.  They have the shape of the real
    primitives (a keyed store that rejects foreign blobs, a textual
    serialization, a printable byte encoding, a salted derivation of the
    requested length, a cipher that checks its tag) and none of their
    cryptographic strength. *)
Module Reference.
Import Js.

(** *** Printable encoding of buffers (two hexadecimal digits per byte) *)

Definition hexDigit (n : N) : ascii :=
  ascii_of_N (if (n <? 10)%N then 48 + n else 87 + n).

Definition hexValue (c : ascii) : option N :=
  let n := N_of_ascii c in
  if ((48 <=? n) && (n <=? 57))%N then Some (n - 48)%N
  else if ((97 <=? n) && (n <=? 102))%N then Some (n - 87)%N
  else None.

Fixpoint encodeBuffer (b : Buffer) : string :=
  match b with
  | [] => EmptyString
  | x :: rest =>
      String (hexDigit (Byte.to_N x / 16))
        (String (hexDigit (Byte.to_N x mod 16)) (encodeBuffer rest))
  end.

Fixpoint decodeBuffer (s : string) : Buffer :=
  match s with
  | String c1 (String c2 rest) =>
      match hexValue c1, hexValue c2 with
      | Some hi, Some lo =>
          match Byte.of_N (16 * hi + lo) with
          | Some x => x :: decodeBuffer rest
          | None => []
          end
      | _, _ => []
      end
  | _ => []
  end.

(** *** Keyed store: a marker byte in front of the text *)

Definition sealText (t : string) : option Buffer :=
  Some (x53 :: list_byte_of_string t).

Definition unsealText (b : Buffer) : option string :=
  match b with
  | x53 :: rest => Some (string_of_list_byte rest)
  | _ => None
  end.

(** *** Serialization: JSON without white space and without escapes *)

Definition dquote : ascii := ascii_of_nat 34.

Definition quoted (s : string) : string :=
  String dquote (s ++ String dquote EmptyString).

Definition printNumber (z : Z) : string :=
  NilZero.string_of_int (Z.to_int z).

Fixpoint printJson (j : json) : string :=
  match j with
  | JNull => "null"
  | JBool true => "true"
  | JBool false => "false"
  | JNum z => printNumber z
  | JStr s => quoted s
  | JArr items =>
      "[" ++
      (fix printItems (l : list json) : string :=
         match l with
         | [] => EmptyString
         | [x] => printJson x
         | x :: rest => printJson x ++ "," ++ printItems rest
         end) items
      ++ "]"
  | JObj fields =>
      "{" ++
      (fix printMembers (l : list (string * json)) : string :=
         match l with
         | [] => EmptyString
         | [(k, v)] => quoted k ++ ":" ++ printJson v
         | (k, v) :: rest =>
             quoted k ++ ":" ++ printJson v ++ "," ++ printMembers rest
         end) fields
      ++ "}"
  end.

(** The text up to the next double quote, and the text after it. *)
Fixpoint untilQuote (s : string) : option (string * string) :=
  match s with
  | EmptyString => None
  | String c rest =>
      if Ascii.eqb c dquote then Some (EmptyString, rest)
      else match untilQuote rest with
           | Some (body, rest') => Some (String c body, rest')
           | None => None
           end
  end.

Definition isNumberChar (c : ascii) : bool :=
  Ascii.eqb c "-" || ((48 <=? nat_of_ascii c) && (nat_of_ascii c <=? 57))%nat.

(** The longest prefix of sign and digit characters, and the rest. *)
Fixpoint spanNumber (s : string) : string * string :=
  match s with
  | EmptyString => (EmptyString, EmptyString)
  | String c rest =>
      if isNumberChar c
      then let '(num, rest') := spanNumber rest in (String c num, rest')
      else (EmptyString, s)
  end.

Fixpoint stripPrefix (p s : string) : option string :=
  match p, s with
  | EmptyString, _ => Some s
  | String a p', String b s' =>
      if Ascii.eqb a b then stripPrefix p' s' else None
  | String _ _, EmptyString => None
  end.

Definition parseString (s : string) : option (string * string) :=
  match s with
  | String c rest => if Ascii.eqb c dquote then untilQuote rest else None
  | EmptyString => None
  end.

Fixpoint parseValue (fuel : nat) (s : string) : option (json * string) :=
  match fuel with
  | O => None
  | S fuel' =>
      match s with
      | EmptyString => None
      | String c rest =>
          if Ascii.eqb c "n" then
            option_map (fun r => (JNull, r)) (stripPrefix "ull" rest)
          else if Ascii.eqb c "t" then
            option_map (fun r => (JBool true, r)) (stripPrefix "rue" rest)
          else if Ascii.eqb c "f" then
            option_map (fun r => (JBool false, r)) (stripPrefix "alse" rest)
          else if Ascii.eqb c dquote then
            option_map (fun '(body, r) => (JStr body, r)) (untilQuote rest)
          else if Ascii.eqb c "[" then
            match rest with
            | String "]" r => Some (JArr [], r)
            | _ => option_map (fun '(items, r) => (JArr items, r))
                              (parseItems fuel' rest)
            end
          else if Ascii.eqb c "{" then
            match rest with
            | String "}" r => Some (JObj [], r)
            | _ => option_map (fun '(fields, r) => (JObj fields, r))
                              (parseMembers fuel' rest)
            end
          else
            let '(num, r) := spanNumber s in
            option_map (fun d => (JNum (Z.of_int d), r))
                       (NilZero.int_of_string num)
      end
  end
with parseItems (fuel : nat) (s : string) : option (list json * string) :=
  match fuel with
  | O => None
  | S fuel' =>
      match parseValue fuel' s with
      | Some (v, String sep r) =>
          if Ascii.eqb sep "]" then Some ([v], r)
          else if Ascii.eqb sep "," then
            option_map (fun '(vs, r') => (v :: vs, r')) (parseItems fuel' r)
          else None
      | _ => None
      end
  end
with parseMembers (fuel : nat) (s : string)
  : option (list (string * json) * string) :=
  match fuel with
  | O => None
  | S fuel' =>
      match parseString s with
      | Some (k, String colon r) =>
          if Ascii.eqb colon ":" then
            match parseValue fuel' r with
            | Some (v, String sep r') =>
                if Ascii.eqb sep "}" then Some ([(k, v)], r')
                else if Ascii.eqb sep "," then
                  option_map (fun '(fs, r'') => ((k, v) :: fs, r''))
                             (parseMembers fuel' r')
                else None
            | _ => None
            end
          else None
      | _ => None
      end
  end.

Definition parseJson (s : string) : option json :=
  match parseValue (S (String.length s)) s with
  | Some (j, EmptyString) => Some j
  | _ => None
  end.

(** *** Text: UTF-8 with unpaired surrogates written as U+FFFD.  Decoding
    hands back the bytes as text, which is what [buffer.toString('utf8')]
    does on the bytes the encoder writes. *)

(** The second and third byte of an unpaired surrogate after [ED]. *)
Definition isSurrogateTail (b2 b3 : byte) : bool :=
  ((160 <=? Byte.to_N b2) && (Byte.to_N b2 <=? 191)
   && (128 <=? Byte.to_N b3) && (Byte.to_N b3 <=? 191))%N.

(** The bytes [cipher.update(text, 'utf8')] reads from a text: the text
    itself, except that an unpaired surrogate becomes [EF BF BD]. *)
Fixpoint encodeText (text : list byte) : Buffer :=
  match text with
  | [] => []
  | b1 :: tail =>
      match tail with
      | b2 :: b3 :: rest =>
          if Byte.eqb b1 xed && isSurrogateTail b2 b3
          then xef :: xbf :: xbd :: encodeText rest
          else b1 :: encodeText tail
      | _ => b1 :: encodeText tail
      end
  end.

(** *** Buffers from arrays: one byte per element *)

Definition byteOfItem (item : json) : byte :=
  match item with
  | JNum z =>
      match Byte.of_N (Z.to_N (z mod 256)) with
      | Some b => b
      | None => x00
      end
  | JBool true => x01
  | _ => x00
  end.

(** An array gives one byte per element: the low byte of a number, 1 for
    [true], 0 for anything else.  Array-like objects are not told apart from
    the objects [Buffer.from] refuses. *)
Definition fromObject (value : json) : Completion Buffer :=
  match value with
  | JArr items => Returned (map byteOfItem items)
  | _ => Threw "TypeError"
  end.

(** *** Key derivation: digest name, password and salt, cut or padded to
    the requested length *)

Definition derive (password : string) (salt : Buffer) (iterations keylen : Z)
                  (digest : string) : Buffer :=
  firstn (Z.to_nat keylen)
    (list_byte_of_string digest ++ list_byte_of_string password ++ salt
     ++ repeat x00 (Z.to_nat keylen))%list.

(** *** Cipher: needs a 32-byte key; the tag is the first half of the key *)

Definition seal (algorithm : string) (key iv plaintext : Buffer)
  : option (Buffer * Buffer) :=
  if (List.length key =? 32)%nat
  then Some (rev plaintext, firstn 16 key)
  else None.

Definition open (algorithm : string) (key iv authTag ciphertext : Buffer)
  : option Buffer :=
  if (List.length key =? 32)%nat && bufferEqb authTag (firstn 16 key)
  then Some (rev ciphertext)
  else None.

#[export] Instance platform : Platform := {|
  isEncryptionAvailable := true;
  encryptString := sealText;
  decryptString := unsealText;
  JSON_stringify := printJson;
  JSON_parse := parseJson;
  toBase64 := encodeBuffer;
  fromBase64 := decodeBuffer;
  bufferFromObject := fromObject;
  utf8Encode := fun text => encodeText (list_byte_of_string text);
  utf8Decode := string_of_list_byte;
  pbkdf2Sync := derive;
  cipherSeal := seal;
  cipherOpen := open
|}.

End Reference.

(* ========================================================================= *)
(** ** Assumptions on the platform, callers, and sample data                  *)
(* ========================================================================= *)

(** What payload encryption relies on: base64 decoding inverts encoding,
    decryption with the same key, nonce and tag inverts encryption, and the
    tag has the configured length.  Nothing is assumed of UTF-8, which does
    not preserve every string. *)
Class CipherLaws (P : Platform) : Prop := {
  base64_roundtrip : forall b : Buffer, fromBase64 (toBase64 b) = b;
  cipher_roundtrip :
    forall algorithm key iv plaintext encrypted authTag,
      cipherSeal algorithm key iv plaintext = Some (encrypted, authTag) ->
      cipherOpen algorithm key iv authTag encrypted = Some plaintext;
  cipher_tag_length :
    forall key iv plaintext encrypted authTag,
      cipherSeal CONFIG.encryption.algorithm key iv plaintext
        = Some (encrypted, authTag) ->
      Z.of_nat (List.length authTag) = CONFIG.encryption.authTagLength
}.

(** The format accepted for a PIN, in words: exactly six characters, each a
    decimal digit. *)
Definition sixDecimalDigits (pin : string) : Prop :=
  String.length pin = 6%nat /\
  Forall (fun c => (48 <= nat_of_ascii c <= 57)%nat) (list_ascii_of_string pin).

Module Caller.
Section WithPlatform.
Context {P : Platform}.

(** A caller that makes one attempt with [pin] per clock reading and, as
    the service asks of its callers, keeps the updated record it is
    handed for the next attempt. *)
Fixpoint attempts (clock : list (Z * Z)) (pin record : string)
                  (s : PinServiceState)
  : list (Completion VerifyPinResult) * PinServiceState :=
  match clock with
  | [] => ([], s)
  | (now, nowLoad) :: later =>
      let '(outcome, s1) := PinService.verifyPin now nowLoad pin record s in
      let record1 :=
        match outcome with
        | Returned r =>
            match updatedEncryptedData r with
            | Some updated => updated
            | None => record
            end
        | Threw _ => record
        end in
      let '(outcomes, s2) := attempts later pin record1 s1 in
      (outcome :: outcomes, s2)
  end.

(** The record a caller obtains for a payload. *)
Definition recordOf (pinData : Js.json) : string :=
  match PinService.encryptPinData pinData with
  | Ok record => record
  | Err _ => EmptyString
  end.

End WithPlatform.
End Caller.

(** What a caller observes of an outcome: [success], [locked],
    [remainingAttempts] and [lockoutSeconds]; [None] for an exception. *)
Definition outline (c : Completion VerifyPinResult)
  : option (bool * bool * Z * option Z) :=
  match c with
  | Returned r => Some (success r, locked r, remainingAttempts r, lockoutSeconds r)
  | Threw _ => None
  end.

Module Sample.
Import Js.

(** A wall-clock reading, in milliseconds since the epoch. *)
Definition t0 : Z := 1700000000000.

Definition pin : string := "123456".
Definition wrongPin : string := "000000".
Definition hashSalt : Buffer := repeat xa5 32.
Definition encryptionSalt : Buffer := repeat x3c 32.
Definition iv : Buffer := repeat x07 16.

(** The record [createPinHash] returns on a newly constructed service. *)
Definition freshRecord : string :=
  match fst (PinService.createPinHash (P := Reference.platform)
               hashSalt encryptionSalt pin PinService.new) with
  | Some record => record
  | None => EmptyString
  end.

(** The lockout state left by the third lockout in a row that started at
    [t0]: twenty minutes of lock. *)
Definition thirdLockout : LockoutState :=
  {| count := 5;
     lastAttempt := t0;
     lockedUntil := Some (t0 + 1200000);
     lockoutCount := 3 |}.

(** A record for [pin] that carries [lockout]. *)
Definition recordWith (lockout : LockoutState) : string :=
  Caller.recordOf (P := Reference.platform)
    (PinService.newPinData (P := Reference.platform)
       (PinService.hashPin (P := Reference.platform) pin hashSalt)
       hashSalt encryptionSalt lockout).

(** A record for [pin] written without an [encryptionSalt] property. *)
Definition legacyRecord : string :=
  Caller.recordOf (P := Reference.platform)
    (JObj [("hash", JStr (toBase64 (Platform := Reference.platform)
                            (PinService.hashPin (P := Reference.platform)
                               pin hashSalt)));
           ("salt", JStr (toBase64 (Platform := Reference.platform) hashSalt))]).

(** A record for [pin] whose [encryptionSalt] holds [value]. *)
Definition recordWithSalt (value : json) : string :=
  Caller.recordOf (P := Reference.platform)
    (JObj [("hash", JStr (toBase64 (Platform := Reference.platform)
                            (PinService.hashPin (P := Reference.platform)
                               pin hashSalt)));
           ("salt", JStr (toBase64 (Platform := Reference.platform) hashSalt));
           ("encryptionSalt", value)]).

(** The text of one unpaired surrogate, U+D800, followed by [abc], and the
    text of U+FFFD followed by [abc]. *)
Definition unpairedSurrogate : string :=
  string_of_list_byte [xed; xa0; x80; x61; x62; x63].
Definition replacementCharacter : string :=
  string_of_list_byte [xef; xbf; xbd; x61; x62; x63].

(** The service after one call of [verifyPin] on an unreadable record at
    [t0]. *)
Definition afterUnreadable : PinServiceState :=
  snd (PinService.verifyPin (P := Reference.platform)
         t0 t0 pin "zz" PinService.new).

End Sample.

Import Js CONFIG.

Ltac unfold_config :=
  unfold rateLimit.maxAttempts, rateLimit.baseLockoutMs,
         rateLimit.attemptResetMs, rateLimit.maxLockoutMultiplier in *.

(** The multiplier applied when the threshold is reached: the escalated
    counter is incremented once more by [calculateLockoutDuration]. *)
Definition appliedMultiplier (lockoutCountBefore : Z) : Z :=
  Z.min (Z.min (lockoutCountBefore + 1) rateLimit.maxLockoutMultiplier + 1)
        rateLimit.maxLockoutMultiplier.

(** The states the lockout manager can be in.  It is constructed in the
    zero state, every method leads from one state to the next, and the
    snapshot it loads is one it serialized earlier. *)
Inductive ManagerReachable : LockoutState -> Prop :=
| reach_constructed :
    ManagerReachable LockoutManager.createDefaultState
| reach_loadFromPinData (now : Z) (st : LockoutState) :
    ManagerReachable st ->
    ManagerReachable
      (LockoutManager.loadFromPinData now
         (Some (LockoutManager.toJson (LockoutManager.serialize st))))
| reach_loadFromPinData_undefined (now : Z) :
    ManagerReachable (LockoutManager.loadFromPinData now None)
| reach_checkAndUpdateExpiry (now : Z) (st : LockoutState) :
    ManagerReachable st ->
    ManagerReachable (LockoutManager.checkAndUpdateExpiry now st)
| reach_recordFailure (now : Z) (st : LockoutState) :
    ManagerReachable st ->
    ManagerReachable (snd (LockoutManager.recordFailure now st))
| reach_recordSuccess (st : LockoutState) :
    ManagerReachable st ->
    ManagerReachable (LockoutManager.recordSuccess st)
| reach_applyMaxLockout (now : Z) (st : LockoutState) :
    ManagerReachable st ->
    ManagerReachable (snd (LockoutManager.applyMaxLockout now st))
| reach_reset (st : LockoutState) :
    ManagerReachable st ->
    ManagerReachable (LockoutManager.reset st).

(** What holds of every such state: the counters are in range, and a lock
    is only present with the attempts used up, at least one escalation
    recorded, and an end between 10 and 60 minutes after the last attempt. *)
Definition LockoutInvariant (st : LockoutState) : Prop :=
  0 <= count st /\
  0 <= lockoutCount st <= rateLimit.maxLockoutMultiplier /\
  forall u : Z,
    lockedUntil st = Some u ->
    rateLimit.maxAttempts <= count st /\
    1 <= lockoutCount st /\
    lastAttempt st + 2 * rateLimit.baseLockoutMs <= u
      <= lastAttempt st
         + rateLimit.baseLockoutMs * rateLimit.maxLockoutMultiplier.

(** The exception, if any, that [Buffer.from(pinData.encryptionSalt,
    'base64')] ends a successful verification with: none when
    [encryptionSalt] is falsy, since it is then not converted, and none when
    it is a string. *)
Definition encryptionSaltError {P : Platform} (pinData : json) : option string :=
  match PinService.pinEncryptionSalt pinData with
  | Some value =>
      if truthy (Some value)
      then match PinService.bufferFrom value with
           | Returned _ => None
           | Threw exn => Some exn
           end
      else None
  | None => None
  end.

(** The lockout state [verifyPin] works on once the record is read: the
    loaded snapshot after the expiry check. *)
Definition loadedLockout (now nowLoad : Z) (pinData : json) : LockoutState :=
  LockoutManager.checkAndUpdateExpiry now
    (LockoutManager.loadFromPinData nowLoad (PinService.pinLockout pinData)).

Module Scenario.

(** The service after the correct PIN was verified against the fresh
    sample record. *)
Definition verified : PinServiceState :=
  snd (PinService.verifyPin (P := Reference.platform)
         Sample.t0 (Sample.t0 + 1) Sample.pin Sample.freshRecord
         PinService.new).

(** The lockout state left by a first lockout that started at [t0]: ten
    minutes of lock. *)
Definition firstLockout : LockoutState :=
  {| count := 5;
     lastAttempt := Sample.t0;
     lockedUntil := Some (Sample.t0 + 600000);
     lockoutCount := 1 |}.

(** A structurally valid record whose stored hash is one byte long. *)
Definition shortHashRecord : string :=
  Caller.recordOf (P := Reference.platform)
    (JObj [("hash", JStr "ab");
           ("salt", JStr (toBase64 (Platform := Reference.platform)
                            Sample.hashSalt))]).

End Scenario.

(* ========================================================================= *)
(** ** Facts about the lockout manager                                        *)
(* ========================================================================= *)


Lemma some_eq {A : Type} (a b : A) : Some a = Some b -> a = b.
Proof. intros H. congruence. Qed.

Lemma ceilDiv_thousands (k : Z) : ceilDiv (k * 1000) 1000 = k.
Proof.
  unfold ceilDiv.
  replace (- (k * 1000)) with ((- k) * 1000) by lia.
  rewrite Z.div_mul by lia. lia.
Qed.

Lemma ceilDiv_positive (x : Z) : 0 < x -> 0 < ceilDiv x 1000.
Proof.
  intros Hx. unfold ceilDiv.
  assert (H : (- x) / 1000 < 0) by (apply Z.div_lt_upper_bound; lia).
  lia.
Qed.

Lemma calculateLockoutDuration_bounds (st : LockoutState) :
  0 <= lockoutCount st ->
  rateLimit.baseLockoutMs <= LockoutManager.calculateLockoutDuration st
    <= rateLimit.baseLockoutMs * rateLimit.maxLockoutMultiplier.
Proof.
  intros Hc. unfold LockoutManager.calculateLockoutDuration. unfold_config. lia.
Qed.

(** Below the threshold a failure only counts. *)
Lemma recordFailure_below_threshold (now : Z) (st : LockoutState) :
  count st + 1 < rateLimit.maxAttempts ->
  LockoutManager.recordFailure now st
  = ({| failLocked := false;
        failRemainingAttempts := rateLimit.maxAttempts - (count st + 1);
        failLockoutSeconds := None |},
     {| count := count st + 1;
        lastAttempt := now;
        lockedUntil := lockedUntil st;
        lockoutCount := lockoutCount st |}).
Proof.
  intros Hlt. unfold LockoutManager.recordFailure. cbn [count].
  destruct (Z.leb_spec rateLimit.maxAttempts (count st + 1)) as [Hge | _].
  - lia.
  - reflexivity.
Qed.

Lemma recordFailure_at_threshold (now : Z) (st : LockoutState) :
  rateLimit.maxAttempts <= count st + 1 ->
  LockoutManager.recordFailure now st
  = ({| failLocked := true;
        failRemainingAttempts := 0;
        failLockoutSeconds := Some (300 * appliedMultiplier (lockoutCount st)) |},
     {| count := count st + 1;
        lastAttempt := now;
        lockedUntil :=
          Some (now + rateLimit.baseLockoutMs
                      * appliedMultiplier (lockoutCount st));
        lockoutCount :=
          Z.min (lockoutCount st + 1) rateLimit.maxLockoutMultiplier |}).
Proof.
  intros Hge. unfold LockoutManager.recordFailure. cbn [count].
  destruct (Z.leb_spec rateLimit.maxAttempts (count st + 1)) as [_ | Hlt].
  - unfold LockoutManager.calculateLockoutDuration, appliedMultiplier.
    cbn [lockoutCount lastAttempt count lockedUntil].
    set (m := Z.min (Z.min (lockoutCount st + 1)
                           rateLimit.maxLockoutMultiplier + 1)
                    rateLimit.maxLockoutMultiplier).
    replace (rateLimit.baseLockoutMs * m) with (300 * m * 1000)
      by (unfold_config; lia).
    rewrite ceilDiv_thousands. reflexivity.
  - lia.
Qed.

(** C2, what the code does: when [recordFailure] brings [count] to the
    threshold, [lockoutCount] becomes [n = min (lockoutCount + 1) 12], but
    the lock lasts [5 minutes * min (n + 1) 12], not [5 minutes * n]: the
    n-th lockout in a row lasts 10, 15, ..., 60 minutes and, below the cap,
    [lockedUntil] differs from [now + baseLockout * n].  The duration never
    exceeds 60 minutes. *)
Theorem recordFailure_lockout_escalation :
  forall (now : Z) (st : LockoutState),
    rateLimit.maxAttempts <= count st + 1 ->
    let n := Z.min (lockoutCount st + 1) rateLimit.maxLockoutMultiplier in
    let r := fst (LockoutManager.recordFailure now st) in
    let st' := snd (LockoutManager.recordFailure now st) in
    lockoutCount st' = n /\
    lockedUntil st'
      = Some (now + rateLimit.baseLockoutMs
                    * Z.min (n + 1) rateLimit.maxLockoutMultiplier) /\
    failLockoutSeconds r
      = Some (300 * Z.min (n + 1) rateLimit.maxLockoutMultiplier) /\
    300 * Z.min (n + 1) rateLimit.maxLockoutMultiplier <= 3600 /\
    (n < rateLimit.maxLockoutMultiplier ->
     lockedUntil st' <> Some (now + rateLimit.baseLockoutMs * n) /\
     failLockoutSeconds r <> Some (300 * n)).
Proof.
  intros now st Hge n r st'. subst r st'.
  rewrite (recordFailure_at_threshold now st Hge).
  cbn [fst snd lockoutCount lockedUntil failLockoutSeconds].
  unfold appliedMultiplier. fold n.
  repeat split; try reflexivity.
  - subst n. unfold_config. lia.
  - intros Heq. apply some_eq in Heq. subst n. unfold_config. lia.
  - intros Heq. apply some_eq in Heq. subst n. unfold_config. lia.
Qed.

Lemma recordFailure_lockout_escalation_witness :
  let st := {| count := 4; lastAttempt := Sample.t0;
               lockedUntil := None; lockoutCount := 0 |} in
  let now := Sample.t0 + 40000 in
  rateLimit.maxAttempts <= count st + 1 /\
  lockoutCount (snd (LockoutManager.recordFailure now st)) = 1 /\
  lockedUntil (snd (LockoutManager.recordFailure now st))
    = Some (now + 600000) /\
  failLockoutSeconds (fst (LockoutManager.recordFailure now st)) = Some 600.
Proof.
  intros st now.
  assert (H1 : rateLimit.maxAttempts <= count st + 1)
    by (vm_compute; discriminate).
  pose proof (recordFailure_lockout_escalation now st H1) as H.
  cbv zeta in H. destruct H as (Ha & Hb & Hc & _).
  repeat split; assumption.
Defined.

Lemma toJson_valid (st : LockoutState) :
  LockoutManager.isValidLockoutState (LockoutManager.toJson st) = true.
Proof. reflexivity. Qed.

Lemma ofJson_toJson (st : LockoutState) :
  LockoutManager.ofJson (LockoutManager.toJson st) = st.
Proof. destruct st as [c la [u |] lc]; reflexivity. Qed.

Lemma valid_lockout_truthy (lockout : json) :
  LockoutManager.isValidLockoutState lockout = true ->
  truthy (Some lockout) = true.
Proof. destruct lockout; cbn; try discriminate; reflexivity. Qed.

(** Loading a valid snapshot, by cases on the snapshot's own fields. *)
Lemma loadFromPinData_valid (now : Z) (lockout : json) :
  LockoutManager.isValidLockoutState lockout = true ->
  LockoutManager.loadFromPinData now (Some lockout)
  = let st := LockoutManager.ofJson lockout in
    if truthyOptNum (lockedUntil st)
       && (match lockedUntil st with Some u => u <=? now | None => false end)
    then {| count := 0; lastAttempt := 0; lockedUntil := None;
            lockoutCount := lockoutCount st |}
    else if truthyNum (lastAttempt st)
            && (rateLimit.attemptResetMs <? now - lastAttempt st)
    then LockoutManager.createDefaultState
    else st.
Proof.
  intros Hv. unfold LockoutManager.loadFromPinData.
  rewrite (valid_lockout_truthy lockout Hv), Hv. reflexivity.
Qed.

(** The staleness branch is reached whenever the lock has not expired,
    whether or not it is still running. *)
Lemma loadFromPinData_stale (now u : Z) (lockout : json) :
  LockoutManager.isValidLockoutState lockout = true ->
  lockedUntil (LockoutManager.ofJson lockout) = Some u ->
  now < u ->
  lastAttempt (LockoutManager.ofJson lockout) <> 0 ->
  rateLimit.attemptResetMs
    < now - lastAttempt (LockoutManager.ofJson lockout) ->
  LockoutManager.loadFromPinData now (Some lockout)
  = LockoutManager.createDefaultState.
Proof.
  intros Hv Hu Hnow Hla Hstale.
  rewrite (loadFromPinData_valid now lockout Hv). cbv zeta. rewrite Hu.
  destruct (Z.leb_spec u now) as [Hle | _]; [lia |].
  rewrite andb_false_r.
  unfold truthyNum.
  destruct (Z.eqb_spec (lastAttempt (LockoutManager.ofJson lockout)) 0)
    as [H0 | _]; [contradiction |].
  destruct (Z.ltb_spec rateLimit.attemptResetMs
              (now - lastAttempt (LockoutManager.ofJson lockout)))
    as [_ | Hge]; [reflexivity | lia].
Qed.

(** A running lock whose last attempt is recent (or unrecorded) is loaded
    unchanged. *)
Lemma loadFromPinData_recent (now u : Z) (lockout : json) :
  LockoutManager.isValidLockoutState lockout = true ->
  lockedUntil (LockoutManager.ofJson lockout) = Some u ->
  now < u ->
  lastAttempt (LockoutManager.ofJson lockout) = 0 \/
  now - lastAttempt (LockoutManager.ofJson lockout)
    <= rateLimit.attemptResetMs ->
  LockoutManager.loadFromPinData now (Some lockout)
  = LockoutManager.ofJson lockout.
Proof.
  intros Hv Hu Hnow Hrecent.
  rewrite (loadFromPinData_valid now lockout Hv). cbv zeta. rewrite Hu.
  destruct (Z.leb_spec u now) as [Hle | _]; [lia |].
  rewrite andb_false_r.
  unfold truthyNum.
  destruct (Z.eqb_spec (lastAttempt (LockoutManager.ofJson lockout)) 0)
    as [H0 | Hn0]; [reflexivity |].
  destruct (Z.ltb_spec rateLimit.attemptResetMs
              (now - lastAttempt (LockoutManager.ofJson lockout)))
    as [Hlt | _]; [| reflexivity].
  destruct Hrecent as [H0 | Hle]; [contradiction | lia].
Qed.

Lemma isLocked_running (now u : Z) (st : LockoutState) :
  lockedUntil st = Some u ->
  0 <= now < u ->
  LockoutManager.isLocked now st = Some (ceilDiv (u - now) 1000).
Proof.
  intros Hu Hnow. unfold LockoutManager.isLocked. rewrite Hu. unfold truthyNum.
  destruct (Z.eqb_spec u 0) as [H0 | _]; [lia |].
  destruct (Z.ltb_spec now u) as [_ | Hge]; [reflexivity | lia].
Qed.

Lemma checkAndUpdateExpiry_default (now : Z) :
  LockoutManager.checkAndUpdateExpiry now LockoutManager.createDefaultState
  = LockoutManager.createDefaultState.
Proof. reflexivity. Qed.

Lemma checkAndUpdateExpiry_running (now u : Z) (st : LockoutState) :
  lockedUntil st = Some u ->
  now < u ->
  lastAttempt st = 0 \/ now - lastAttempt st <= rateLimit.attemptResetMs ->
  LockoutManager.checkAndUpdateExpiry now st = st.
Proof.
  intros Hu Hnow Hrecent. unfold LockoutManager.checkAndUpdateExpiry.
  rewrite Hu.
  destruct (Z.leb_spec u now) as [Hle | _]; [lia |].
  rewrite andb_false_r. cbv beta iota zeta. unfold truthyNum.
  destruct (Z.eqb_spec (lastAttempt st) 0) as [H0 | Hn0]; [reflexivity |].
  destruct (Z.ltb_spec rateLimit.attemptResetMs (now - lastAttempt st))
    as [Hlt | _]; [| reflexivity].
  destruct Hrecent as [H0 | Hle]; [contradiction | lia].
Qed.

(** C3, what the code does: a valid snapshot whose lock is still running
    ([now < lockedUntil]) is replaced by the zero state as soon as its
    [lastAttempt] is more than 15 minutes old, so the active lock is
    cleared. *)
Theorem loadFromPinData_stale_clears_active_lock :
  forall (now u : Z) (lockout : json),
    LockoutManager.isValidLockoutState lockout = true ->
    lockedUntil (LockoutManager.ofJson lockout) = Some u ->
    0 <= now < u ->
    lastAttempt (LockoutManager.ofJson lockout) <> 0 ->
    rateLimit.attemptResetMs
      < now - lastAttempt (LockoutManager.ofJson lockout) ->
    LockoutManager.isLocked now (LockoutManager.ofJson lockout)
      = Some (ceilDiv (u - now) 1000) /\
    LockoutManager.loadFromPinData now (Some lockout)
      = LockoutManager.createDefaultState /\
    LockoutManager.isLocked now
      (LockoutManager.loadFromPinData now (Some lockout)) = None.
Proof.
  intros now u lockout Hv Hu Hnow Hla Hstale.
  split; [| split].
  - apply isLocked_running; assumption.
  - apply (loadFromPinData_stale now u); try assumption. lia.
  - rewrite (loadFromPinData_stale now u lockout) by (try assumption; lia).
    reflexivity.
Qed.

Lemma loadFromPinData_stale_clears_active_lock_witness :
  let now := Sample.t0 + 900001 in
  let lockout := LockoutManager.toJson Sample.thirdLockout in
  (0 <= now < Sample.t0 + 1200000) /\
  rateLimit.attemptResetMs
    < now - lastAttempt (LockoutManager.ofJson lockout) /\
  LockoutManager.isLocked now (LockoutManager.ofJson lockout) = Some 300 /\
  LockoutManager.loadFromPinData now (Some lockout)
    = LockoutManager.createDefaultState /\
  LockoutManager.isLocked now
    (LockoutManager.loadFromPinData now (Some lockout)) = None.
Proof.
  intros now lockout.
  assert (Hnow : 0 <= now < Sample.t0 + 1200000)
    by (vm_compute; split; [discriminate | reflexivity]).
  assert (Hstale : rateLimit.attemptResetMs
                   < now - lastAttempt (LockoutManager.ofJson lockout))
    by (vm_compute; reflexivity).
  assert (Hla : lastAttempt (LockoutManager.ofJson lockout) <> 0)
    by (vm_compute; discriminate).
  split; [exact Hnow | split; [exact Hstale |]].
  exact (loadFromPinData_stale_clears_active_lock
           now (Sample.t0 + 1200000) lockout eq_refl eq_refl Hnow Hla Hstale).
Defined.


(* ========================================================================= *)
(** ** Facts about the PIN service                                            *)
(* ========================================================================= *)

Section PinFormat.

Lemma isDigit_spec (c : ascii) :
  PinService.isDigit c = true <-> (48 <= nat_of_ascii c <= 57)%nat.
Proof.
  unfold PinService.isDigit. rewrite andb_true_iff, !Nat.leb_le. tauto.
Qed.

Lemma digitsToEnd_spec (n : nat) :
  forall s : string,
    PinService.digitsToEnd n s = true <->
    String.length s = n /\
    Forall (fun c => (48 <= nat_of_ascii c <= 57)%nat) (list_ascii_of_string s).
Proof.
  induction n as [| n IH]; intros [| c rest]; cbn.
  - split; [intros _; split; [reflexivity | constructor] | reflexivity].
  - split; [discriminate | intros [H _]; discriminate].
  - split; [discriminate | intros [H _]; discriminate].
  - rewrite andb_true_iff, isDigit_spec, IH. split.
    + intros (Hc & Hlen & Hall). split; [lia | constructor; assumption].
    + intros (Hlen & Hall). inversion Hall; subst.
      repeat split; try assumption; lia.
Qed.

(** The regular expression accepts exactly the six-digit strings. *)
Lemma validatePinFormat_spec (pin : string) :
  PinService.validatePinFormat pin = true <-> sixDecimalDigits pin.
Proof. apply digitsToEnd_spec. Qed.

Lemma validatePinFormat_false (pin : string) :
  ~ sixDecimalDigits pin -> PinService.validatePinFormat pin = false.
Proof.
  intros Hn. destruct (PinService.validatePinFormat pin) eqn:E; [| reflexivity].
  apply validatePinFormat_spec in E. contradiction.
Qed.

End PinFormat.

Section Verification.
Context {P : Platform}.

(** The result returned for a malformed PIN. *)
Lemma verifyPin_malformed (now nowLoad : Z) (pin record : string)
                          (s : PinServiceState) :
  PinService.validatePinFormat pin = false ->
  PinService.verifyPin now nowLoad pin record s
  = (Returned {| success := false;
                 locked := false;
                 remainingAttempts := 5;
                 lockoutSeconds := None;
                 updatedEncryptedData := None |},
     s).
Proof.
  intros Hf. unfold PinService.verifyPin. rewrite Hf. reflexivity.
Qed.

(** C8: an entered PIN that is not exactly six decimal digits is answered
    with [{success: false, locked: false, remainingAttempts: 5}] and no
    updated record, and the service state (lockout state included) is the
    same after any number of such calls. *)
Theorem verifyPin_format_rejection_is_free :
  forall (clock : list (Z * Z)) (pin record : string) (s : PinServiceState),
    ~ sixDecimalDigits pin ->
    Caller.attempts clock pin record s
    = (map (fun _ => Returned {| success := false;
                                 locked := false;
                                 remainingAttempts := 5;
                                 lockoutSeconds := None;
                                 updatedEncryptedData := None |}) clock,
       s).
Proof.
  intros clock pin record s Hn.
  apply validatePinFormat_false in Hn.
  induction clock as [| [now nowLoad] later IH]; cbn [Caller.attempts map].
  - reflexivity.
  - rewrite (verifyPin_malformed now nowLoad pin record s Hn).
    cbn [updatedEncryptedData]. rewrite IH. reflexivity.
Qed.

(** When [decryptPinData] fails. *)
Lemma decryptPinData_fails_iff (record : string) :
  isOk (PinService.decryptPinData record) = false <->
  record = EmptyString \/
  isEncryptionAvailable = false \/
  decryptString (fromBase64 record) = None \/
  (exists text,
      decryptString (fromBase64 record) = Some text /\
      JSON_parse text = None) \/
  (exists text data,
      decryptString (fromBase64 record) = Some text /\
      JSON_parse text = Some data /\
      PinService.isValidPinData data = false).
Proof.
  unfold PinService.decryptPinData.
  destruct record as [| c rest]; cbn [truthyStr negb].
  { split; [intros _; left; reflexivity | reflexivity]. }
  destruct isEncryptionAvailable; cbn [negb].
  2: { split; [intros _; right; left; reflexivity | reflexivity]. }
  destruct (decryptString (fromBase64 (String c rest))) as [text |].
  2: { split; [intros _; right; right; left; reflexivity | reflexivity]. }
  destruct (JSON_parse text) as [data |] eqn:Eparse.
  2: { split; [intros _ | reflexivity].
       right; right; right; left. exists text. split; [reflexivity | assumption]. }
  destruct (PinService.isValidPinData data) eqn:Evalid; cbn [negb isOk].
  - split; [discriminate |].
    intros [H | [H | [H | [(t & Ht & Hp) | (t & d & Ht & Hp & Hv)]]]];
      try discriminate.
    + injection Ht as <-. congruence.
    + injection Ht as <-. congruence.
  - split; [intros _ | reflexivity].
    right; right; right; right. exists text, data. repeat split; assumption.
Qed.

(** C7: when the record cannot be decrypted and parsed into a structurally
    valid payload, [verifyPin] with a well-formed PIN returns (it does not
    throw) [{success: false, locked: true, remainingAttempts: 0,
    lockoutSeconds: 3600}] and leaves the lockout manager at the maximum
    lockout. *)
Theorem verifyPin_unreadable_record :
  forall (now nowLoad : Z) (pin record : string) (s : PinServiceState),
    sixDecimalDigits pin ->
    isOk (PinService.decryptPinData record) = false ->
    PinService.verifyPin now nowLoad pin record s
    = (Returned {| success := false;
                   locked := true;
                   remainingAttempts := 0;
                   lockoutSeconds := Some 3600;
                   updatedEncryptedData := None |},
       withLockout {| count := 5;
                      lastAttempt := now;
                      lockedUntil := Some (now + 3600000);
                      lockoutCount := 12 |} s).
Proof.
  intros now nowLoad pin record s Hpin Hfail.
  apply validatePinFormat_spec in Hpin.
  unfold PinService.verifyPin. rewrite Hpin. cbn [negb].
  destruct (PinService.decryptPinData record) as [pinData | e];
    [discriminate |].
  reflexivity.
Qed.

End Verification.

Lemma sample_pin_wellformed : sixDecimalDigits Sample.pin.
Proof. apply validatePinFormat_spec. reflexivity. Defined.

Lemma verifyPin_format_rejection_is_free_witness :
  ~ sixDecimalDigits "12345" /\
  Caller.attempts (P := Reference.platform)
    [(Sample.t0, Sample.t0 + 1); (Sample.t0 + 5, Sample.t0 + 6);
     (Sample.t0 + 9, Sample.t0 + 9)]
    "12345" Sample.freshRecord Sample.afterUnreadable
  = (map (fun _ => Returned {| success := false;
                               locked := false;
                               remainingAttempts := 5;
                               lockoutSeconds := None;
                               updatedEncryptedData := None |})
         [(Sample.t0, Sample.t0 + 1); (Sample.t0 + 5, Sample.t0 + 6);
          (Sample.t0 + 9, Sample.t0 + 9)],
     Sample.afterUnreadable).
Proof.
  assert (Hn : ~ sixDecimalDigits "12345")
    by (intros [Hlen _]; vm_compute in Hlen; discriminate).
  split; [exact Hn |].
  apply (verifyPin_format_rejection_is_free (P := Reference.platform)).
  exact Hn.
Defined.

Lemma verifyPin_unreadable_record_witness :
  sixDecimalDigits Sample.pin /\
  isOk (PinService.decryptPinData (P := Reference.platform) "zz") = false /\
  PinService.verifyPin (P := Reference.platform)
    Sample.t0 (Sample.t0 + 1) Sample.pin "zz" PinService.new
  = (Returned {| success := false;
                 locked := true;
                 remainingAttempts := 0;
                 lockoutSeconds := Some 3600;
                 updatedEncryptedData := None |},
     withLockout {| count := 5;
                    lastAttempt := Sample.t0;
                    lockedUntil := Some (Sample.t0 + 3600000);
                    lockoutCount := 12 |} PinService.new).
Proof.
  split; [exact sample_pin_wellformed | split; [reflexivity |]].
  apply (verifyPin_unreadable_record (P := Reference.platform)).
  - exact sample_pin_wellformed.
  - reflexivity.
Defined.

Lemma bufferEqb_refl (b : Buffer) : bufferEqb b b = true.
Proof.
  induction b as [| x rest IH]; cbn [bufferEqb]; [reflexivity |].
  rewrite IH, andb_true_r. apply Byte.byte_dec_lb. reflexivity.
Qed.

Lemma bufferEqb_eq (a b : Buffer) : bufferEqb a b = true -> a = b.
Proof.
  revert b. induction a as [| x a IH]; intros [| y b]; cbn [bufferEqb];
    try discriminate; [reflexivity |].
  intros H. apply andb_true_iff in H as [Hxy Hab].
  apply Byte.byte_dec_bl in Hxy. rewrite (IH b Hab), Hxy. reflexivity.
Qed.

Lemma timingSafeEqual_refl (b : Buffer) : timingSafeEqual b b = Some true.
Proof.
  unfold timingSafeEqual. rewrite Nat.eqb_refl, bufferEqb_refl. reflexivity.
Qed.

Lemma toJson_injective (a b : LockoutState) :
  LockoutManager.toJson a = LockoutManager.toJson b -> a = b.
Proof.
  intros H. rewrite <- (ofJson_toJson a), <- (ofJson_toJson b), H. reflexivity.
Qed.

Section LockedRecords.
Context {P : Platform}.

Lemma clearDerivedKey_lockout (s : PinServiceState) :
  lockoutManager (PinService.clearDerivedKey s) = lockoutManager s.
Proof.
  unfold PinService.clearDerivedKey.
  destruct (derivedEncryptionKey s); reflexivity.
Qed.

Lemma clearDerivedKey_verified (s : PinServiceState) :
  isPinVerified (PinService.clearDerivedKey s) = isPinVerified s.
Proof.
  unfold PinService.clearDerivedKey.
  destruct (derivedEncryptionKey s); reflexivity.
Qed.

Lemma setDerivedKey_lockout (pin : string) (salt : Buffer)
                            (s : PinServiceState) :
  lockoutManager (PinService.setDerivedKey pin salt s) = lockoutManager s.
Proof.
  unfold PinService.setDerivedKey. cbn [withKey lockoutManager].
  apply clearDerivedKey_lockout.
Qed.

Lemma setDerivedKey_key (pin : string) (salt : Buffer) (s : PinServiceState) :
  derivedEncryptionKey (PinService.setDerivedKey pin salt s)
  = Some (PinService.deriveEncryptionKey pin salt).
Proof. reflexivity. Qed.

Lemma setDerivedKey_verified (pin : string) (salt : Buffer)
                             (s : PinServiceState) :
  isPinVerified (PinService.setDerivedKey pin salt s) = isPinVerified s.
Proof.
  unfold PinService.setDerivedKey. cbn [withKey isPinVerified].
  apply clearDerivedKey_verified.
Qed.

(** The branch taken on a match: the lockout is reset and the verified flag
    set in every case; the call then returns its success result, unless
    [Buffer.from] refuses the record's [encryptionSalt]. *)
Lemma handleSuccessfulVerification_spec (pin : string) (pinData : json)
                                        (s : PinServiceState) :
  let out := PinService.handleSuccessfulVerification pin pinData s in
  isPinVerified (snd out) = true /\
  lockoutManager (snd out) = LockoutManager.createDefaultState /\
  match encryptionSaltError pinData with
  | Some exn =>
      out = (Threw exn,
             withVerified true
               (withLockout LockoutManager.createDefaultState s))
  | None =>
      fst out
      = Returned
          {| success := true;
             locked := false;
             remainingAttempts := 5;
             lockoutSeconds := None;
             updatedEncryptedData :=
               PinService.okValue
                 (PinService.encryptPinData
                    (spreadWith pinData "lockout"
                       (LockoutManager.toJson
                          LockoutManager.createDefaultState))) |}
  end.
Proof.
  unfold PinService.handleSuccessfulVerification, encryptionSaltError.
  cbv zeta.
  unfold PinService.updateLockoutInPinData, LockoutManager.serialize.
  destruct (PinService.pinEncryptionSalt pinData) as [value |].
  - destruct (truthy (Some value)).
    + destruct (PinService.bufferFrom value) as [salt | exn]; cbn [fst snd].
      * rewrite setDerivedKey_lockout, setDerivedKey_verified.
        repeat split.
      * repeat split.
    + repeat split.
  - repeat split.
Qed.

(** The key cached on a match: derived from the entered PIN and the buffer
    made of [encryptionSalt] when that property is truthy and converted,
    and left as it was otherwise. *)
Lemma handleSuccessfulVerification_key (pin : string) (pinData : json)
                                       (s : PinServiceState) :
  let s' := snd (PinService.handleSuccessfulVerification pin pinData s) in
  match PinService.pinEncryptionSalt pinData with
  | Some value =>
      if truthy (Some value)
      then match PinService.bufferFrom value with
           | Returned salt =>
               derivedEncryptionKey s'
               = Some (PinService.deriveEncryptionKey pin salt)
           | Threw _ => derivedEncryptionKey s' = derivedEncryptionKey s
           end
      else derivedEncryptionKey s' = derivedEncryptionKey s
  | None => derivedEncryptionKey s' = derivedEncryptionKey s
  end.
Proof.
  unfold PinService.handleSuccessfulVerification. cbv zeta.
  destruct (PinService.pinEncryptionSalt pinData) as [value |];
    [| reflexivity].
  destruct (truthy (Some value)); [| reflexivity].
  destruct (PinService.bufferFrom value) as [salt | exn]; reflexivity.
Qed.

(** A falsy [encryptionSalt] is not converted, and a string is always
    converted. *)
Lemma encryptionSaltError_falsy (pinData : json) :
  truthy (PinService.pinEncryptionSalt pinData) = false ->
  encryptionSaltError pinData = None.
Proof.
  unfold encryptionSaltError.
  destruct (PinService.pinEncryptionSalt pinData) as [value |];
    [| reflexivity].
  intros ->. reflexivity.
Qed.

Lemma encryptionSaltError_string (pinData : json) (text : string) :
  PinService.pinEncryptionSalt pinData = Some (JStr text) ->
  encryptionSaltError pinData = None.
Proof.
  unfold encryptionSaltError. intros ->.
  destruct (truthy (Some (JStr text))); reflexivity.
Qed.

(** What a successful branch that returned has returned. *)
Lemma handleSuccessfulVerification_result
      (pin : string) (pinData : json) (s s' : PinServiceState)
      (r : VerifyPinResult) :
  PinService.handleSuccessfulVerification pin pinData s = (Returned r, s') ->
  r = {| success := true;
         locked := false;
         remainingAttempts := 5;
         lockoutSeconds := None;
         updatedEncryptedData :=
           PinService.okValue
             (PinService.encryptPinData
                (spreadWith pinData "lockout"
                   (LockoutManager.toJson
                      LockoutManager.createDefaultState))) |} /\
  isPinVerified s' = true /\
  lockoutManager s' = LockoutManager.createDefaultState /\
  encryptionSaltError pinData = None.
Proof.
  intros H.
  destruct (handleSuccessfulVerification_spec pin pinData s)
    as (Hv & Hl & Hout).
  cbv zeta in Hv, Hl, Hout. rewrite H in Hv, Hl, Hout.
  cbn [fst snd] in Hv, Hl, Hout.
  destruct (encryptionSaltError pinData) as [exn |]; [discriminate |].
  assert (Hr : forall a b : VerifyPinResult, Returned a = Returned b -> a = b)
    by (intros a b Hab; congruence).
  apply Hr in Hout. repeat split; assumption.
Qed.

(** Where a successful branch that threw has stopped. *)
Lemma handleSuccessfulVerification_threw
      (pin : string) (pinData : json) (s s' : PinServiceState)
      (exn : string) :
  PinService.handleSuccessfulVerification pin pinData s = (Threw exn, s') ->
  encryptionSaltError pinData = Some exn /\
  s' = withVerified true (withLockout LockoutManager.createDefaultState s).
Proof.
  intros H.
  destruct (handleSuccessfulVerification_spec pin pinData s)
    as (_ & _ & Hout).
  cbv zeta in Hout. rewrite H in Hout. cbn [fst] in Hout.
  destruct (encryptionSaltError pinData) as [exn0 |]; [| discriminate].
  assert (He : exn = exn0) by congruence.
  subst exn0. split; [reflexivity |]. congruence.
Qed.

(** While the loaded lock is running and its last attempt is recent, the
    call is answered from the lockout state alone: the entered PIN is not
    hashed or compared, and the result does not depend on it. *)
Lemma verifyPin_while_locked (now nowLoad u : Z) (pin record : string)
                             (pinData lockout : json) (s : PinServiceState) :
  PinService.validatePinFormat pin = true ->
  PinService.decryptPinData record = Ok pinData ->
  PinService.pinLockout pinData = Some lockout ->
  LockoutManager.isValidLockoutState lockout = true ->
  lockedUntil (LockoutManager.ofJson lockout) = Some u ->
  0 <= now <= nowLoad ->
  nowLoad < u ->
  lastAttempt (LockoutManager.ofJson lockout) = 0 \/
  nowLoad - lastAttempt (LockoutManager.ofJson lockout)
    <= rateLimit.attemptResetMs ->
  PinService.verifyPin now nowLoad pin record s
  = (Returned {| success := false;
                 locked := true;
                 remainingAttempts := 0;
                 lockoutSeconds := Some (ceilDiv (u - now) 1000);
                 updatedEncryptedData := None |},
     withLockout (LockoutManager.ofJson lockout) s).
Proof.
  intros Hpin Hdec Hlock Hv Hu Hnow Hrun Hrecent.
  unfold PinService.verifyPin. rewrite Hpin, Hdec, Hlock. cbn [negb].
  rewrite (loadFromPinData_recent nowLoad u lockout Hv Hu Hrun Hrecent).
  rewrite (checkAndUpdateExpiry_running now u) by (try assumption; lia).
  rewrite (isLocked_running now u) by (try assumption; lia).
  reflexivity.
Qed.

(** C4, what the code does: a record whose lock is still running but whose
    [lastAttempt] is more than 15 minutes old is loaded as the zero state,
    so the entered PIN is compared and the correct PIN succeeds, with the
    lockout reset.  (When [Buffer.from] refuses the record's
    [encryptionSalt], the call ends in that exception instead of returning
    the success result, the PIN compared and the lockout reset all the
    same.)  In no case is the running lock enforced. *)
Theorem verifyPin_stale_lock_is_not_enforced :
  forall (now nowLoad u : Z) (pin record : string) (pinData lockout : json)
         (s : PinServiceState),
    sixDecimalDigits pin ->
    PinService.decryptPinData record = Ok pinData ->
    PinService.pinLockout pinData = Some lockout ->
    LockoutManager.isValidLockoutState lockout = true ->
    lockedUntil (LockoutManager.ofJson lockout) = Some u ->
    0 <= now <= nowLoad ->
    nowLoad < u ->
    lastAttempt (LockoutManager.ofJson lockout) <> 0 ->
    rateLimit.attemptResetMs
      < nowLoad - lastAttempt (LockoutManager.ofJson lockout) ->
    timingSafeEqual
      (fromBase64 (PinService.pinHash pinData))
      (PinService.hashPin pin (fromBase64 (PinService.pinSalt pinData)))
      = Some true ->
    let out := PinService.verifyPin now nowLoad pin record s in
    lockoutManager (snd out) = LockoutManager.createDefaultState /\
    match encryptionSaltError pinData with
    | None =>
        exists r : VerifyPinResult,
          fst out = Returned r /\
          success r = true /\
          locked r = false /\
          remainingAttempts r = 5 /\
          lockoutSeconds r = None
    | Some exn => fst out = Threw exn
    end.
Proof.
  intros now nowLoad u pin record pinData lockout s
         Hpin Hdec Hlock Hv Hu Hnow Hrun Hla Hstale Heq.
  apply validatePinFormat_spec in Hpin.
  unfold PinService.verifyPin. rewrite Hpin, Hdec, Hlock. cbn [negb].
  rewrite (loadFromPinData_stale nowLoad u lockout Hv Hu Hrun Hla Hstale).
  rewrite checkAndUpdateExpiry_default.
  cbn [LockoutManager.isLocked LockoutManager.createDefaultState lockedUntil].
  unfold PinService.performVerification. rewrite Heq.
  destruct (handleSuccessfulVerification_spec pin pinData
              (withLockout LockoutManager.createDefaultState s))
    as (_ & Hl & Hout).
  cbv zeta in Hl, Hout. split; [exact Hl |].
  destruct (encryptionSaltError pinData) as [exn |].
  - rewrite Hout. reflexivity.
  - eexists. split; [exact Hout |]. repeat split.
Qed.

End LockedRecords.

Lemma verifyPin_stale_lock_is_not_enforced_witness :
  let now := Sample.t0 + 900001 in
  let nowLoad := Sample.t0 + 900002 in
  let record := Sample.recordWith Sample.thirdLockout in
  let out :=
    PinService.verifyPin (P := Reference.platform)
      now nowLoad Sample.pin record PinService.new in
  (0 <= now <= nowLoad) /\
  nowLoad < Sample.t0 + 1200000 /\
  lockoutManager (snd out) = LockoutManager.createDefaultState /\
  exists r : VerifyPinResult,
    fst out = Returned r /\
    success r = true /\
    locked r = false /\
    remainingAttempts r = 5 /\
    lockoutSeconds r = None.
Proof.
  intros now nowLoad record out.
  assert (Hnow : 0 <= now <= nowLoad)
    by (vm_compute; split; discriminate).
  assert (Hrun : nowLoad < Sample.t0 + 1200000) by (vm_compute; reflexivity).
  split; [exact Hnow | split; [exact Hrun |]].
  set (pinData :=
         PinService.newPinData (P := Reference.platform)
           (PinService.hashPin (P := Reference.platform)
              Sample.pin Sample.hashSalt)
           Sample.hashSalt Sample.encryptionSalt Sample.thirdLockout).
  assert (Hdec : PinService.decryptPinData (P := Reference.platform) record
                 = Ok pinData) by (vm_compute; reflexivity).
  assert (Hla : lastAttempt (LockoutManager.ofJson
                               (LockoutManager.toJson Sample.thirdLockout))
                <> 0) by (vm_compute; discriminate).
  assert (Hstale : rateLimit.attemptResetMs
                   < nowLoad
                     - lastAttempt (LockoutManager.ofJson
                                      (LockoutManager.toJson
                                         Sample.thirdLockout)))
    by (vm_compute; reflexivity).
  assert (Heq : timingSafeEqual
                  (fromBase64 (Platform := Reference.platform)
                     (PinService.pinHash pinData))
                  (PinService.hashPin (P := Reference.platform) Sample.pin
                     (fromBase64 (Platform := Reference.platform)
                        (PinService.pinSalt pinData)))
                = Some true) by (vm_compute; reflexivity).
  pose proof (verifyPin_stale_lock_is_not_enforced (P := Reference.platform)
                now nowLoad (Sample.t0 + 1200000) Sample.pin record pinData
                (LockoutManager.toJson Sample.thirdLockout) PinService.new
                sample_pin_wellformed Hdec eq_refl eq_refl eq_refl
                Hnow Hrun Hla Hstale Heq) as H.
  cbv zeta in H. fold out in H.
  rewrite (encryptionSaltError_string (P := Reference.platform) pinData
             (toBase64 (Platform := Reference.platform)
                Sample.encryptionSalt) eq_refl) in H.
  exact H.
Defined.

Section Creation.
Context {P : Platform}.

Lemma newPinData_lockout (h salt es : Buffer) (l : LockoutState) :
  PinService.pinLockout (PinService.newPinData h salt es l)
  = Some (LockoutManager.toJson l).
Proof. reflexivity. Qed.

Lemma newPinData_hash (h salt es : Buffer) (l : LockoutState) :
  PinService.pinHash (PinService.newPinData h salt es l) = toBase64 h.
Proof. reflexivity. Qed.

Lemma newPinData_salt (h salt es : Buffer) (l : LockoutState) :
  PinService.pinSalt (PinService.newPinData h salt es l) = toBase64 salt.
Proof. reflexivity. Qed.

(** What a successful [createPinHash] did. *)
Lemma createPinHash_Some (salt es : Buffer) (pin record : string)
                         (s s1 : PinServiceState) :
  PinService.createPinHash salt es pin s = (Some record, s1) ->
  PinService.validatePinFormat pin = true /\
  PinService.encryptPinData
    (PinService.newPinData (PinService.hashPin pin salt) salt es
       (lockoutManager s)) = Ok record /\
  s1 = PinService.resetAttempts s.
Proof.
  unfold PinService.createPinHash, PinService.createPinHashSafe.
  destruct isEncryptionAvailable; cbn [negb]; [| discriminate].
  destruct (PinService.validatePinFormat pin); cbn [negb]; [| discriminate].
  unfold LockoutManager.serialize.
  destruct (PinService.encryptPinData _) as [value | e]; [| discriminate].
  intros H. injection H as -> <-. repeat split.
Qed.

(** C5, what the code does: the record that [createPinHashSafe] assembles
    and encrypts carries the lockout state the manager held in memory when
    the call was made; the manager is reset only after the snapshot was
    taken.  The record carries the zero state only when the manager was in
    the zero state. *)
Theorem createPinHashSafe_embeds_in_memory_lockout :
  forall (salt es : Buffer) (pin : string) (s : PinServiceState),
    isEncryptionAvailable = true ->
    sixDecimalDigits pin ->
    let pinData :=
      PinService.newPinData (PinService.hashPin pin salt) salt es
        (lockoutManager s) in
    PinService.createPinHashSafe salt es pin s
      = (PinService.encryptPinData pinData, PinService.resetAttempts s) /\
    PinService.pinLockout pinData
      = Some (LockoutManager.toJson (lockoutManager s)) /\
    (lockoutManager s <> LockoutManager.createDefaultState ->
     PinService.pinLockout pinData
       <> Some (LockoutManager.toJson LockoutManager.createDefaultState)).
Proof.
  intros salt es pin s Hav Hpin pinData.
  apply validatePinFormat_spec in Hpin.
  split; [| split].
  - unfold PinService.createPinHashSafe. rewrite Hav, Hpin. reflexivity.
  - apply newPinData_lockout.
  - intros Hne Heq. subst pinData. rewrite newPinData_lockout in Heq.
    apply some_eq, toJson_injective in Heq. contradiction.
Qed.

(** C6, what the code does: when the manager holds a running lock at the
    time [createPinHash] is called, the new record inherits that lock, and
    verifying the very PIN it was created for is refused as locked. *)
Theorem createPin_then_verifyPin_locked :
  forall (now nowLoad u : Z) (salt es : Buffer) (pin record : string)
         (s s1 : PinServiceState),
    lockedUntil (lockoutManager s) = Some u ->
    0 <= now <= nowLoad ->
    nowLoad < u ->
    lastAttempt (lockoutManager s) = 0 \/
    nowLoad - lastAttempt (lockoutManager s) <= rateLimit.attemptResetMs ->
    PinService.createPinHash salt es pin s = (Some record, s1) ->
    PinService.decryptPinData record
      = Ok (PinService.newPinData (PinService.hashPin pin salt) salt es
              (lockoutManager s)) ->
    PinService.verifyPin now nowLoad pin record s1
    = (Returned {| success := false;
                   locked := true;
                   remainingAttempts := 0;
                   lockoutSeconds := Some (ceilDiv (u - now) 1000);
                   updatedEncryptedData := None |},
       withLockout (lockoutManager s) s1).
Proof.
  intros now nowLoad u salt es pin record s s1 Hu Hnow Hrun Hrecent Hcreate Hdec.
  apply createPinHash_Some in Hcreate as (Hpin & _ & _).
  rewrite (verifyPin_while_locked now nowLoad u pin record _
             (LockoutManager.toJson (lockoutManager s)) s1 Hpin Hdec).
  - rewrite ofJson_toJson. reflexivity.
  - apply newPinData_lockout.
  - apply toJson_valid.
  - rewrite ofJson_toJson. exact Hu.
  - exact Hnow.
  - exact Hrun.
  - rewrite ofJson_toJson. exact Hrecent.
Qed.

(** X20: on a manager in the zero state the round trip holds: the record
    just created verifies the PIN it was created for, provided the platform
    reads the record back and base64 decoding inverts encoding on the hash
    and the salt. *)
Lemma createPin_then_verifyPin_fresh
      (now nowLoad : Z) (salt es : Buffer) (pin record : string)
      (s s1 : PinServiceState) :
  lockoutManager s = LockoutManager.createDefaultState ->
  fromBase64 (toBase64 salt) = salt ->
  fromBase64 (toBase64 (PinService.hashPin pin salt))
    = PinService.hashPin pin salt ->
  PinService.createPinHash salt es pin s = (Some record, s1) ->
  PinService.decryptPinData record
    = Ok (PinService.newPinData (PinService.hashPin pin salt) salt es
            (lockoutManager s)) ->
  exists (r : VerifyPinResult) (s2 : PinServiceState),
    PinService.verifyPin now nowLoad pin record s1 = (Returned r, s2) /\
    success r = true /\
    locked r = false /\
    remainingAttempts r = rateLimit.maxAttempts.
Proof.
  intros Hzero Hsalt Hhash Hcreate Hdec.
  apply createPinHash_Some in Hcreate as (Hpin & _ & _).
  unfold PinService.verifyPin. rewrite Hpin, Hdec. cbn [negb].
  rewrite newPinData_lockout, Hzero.
  change (LockoutManager.loadFromPinData nowLoad
            (Some (LockoutManager.toJson LockoutManager.createDefaultState)))
    with LockoutManager.createDefaultState.
  rewrite checkAndUpdateExpiry_default.
  cbn [LockoutManager.isLocked LockoutManager.createDefaultState lockedUntil].
  unfold PinService.performVerification.
  rewrite newPinData_salt, newPinData_hash, Hsalt, Hhash, timingSafeEqual_refl.
  match goal with
  | |- context [PinService.handleSuccessfulVerification pin ?d ?s0] =>
      destruct (handleSuccessfulVerification_spec pin d s0) as (_ & _ & Hout);
      cbv zeta in Hout;
      rewrite (encryptionSaltError_string d (toBase64 es) eq_refl) in Hout;
      destruct (PinService.handleSuccessfulVerification pin d s0) as [c s2]
  end.
  cbn [fst] in Hout. subst c.
  eexists. eexists. split; [reflexivity |]. repeat split.
Qed.

End Creation.

Lemma createPinHashSafe_embeds_in_memory_lockout_witness :
  let s := Sample.afterUnreadable in
  let pinData :=
    PinService.newPinData (P := Reference.platform)
      (PinService.hashPin (P := Reference.platform) Sample.pin Sample.hashSalt)
      Sample.hashSalt Sample.encryptionSalt (lockoutManager s) in
  isEncryptionAvailable (Platform := Reference.platform) = true /\
  sixDecimalDigits Sample.pin /\
  lockoutManager s
    = {| count := 5;
         lastAttempt := Sample.t0;
         lockedUntil := Some (Sample.t0 + 3600000);
         lockoutCount := 12 |} /\
  PinService.createPinHashSafe (P := Reference.platform)
    Sample.hashSalt Sample.encryptionSalt Sample.pin s
    = (PinService.encryptPinData (P := Reference.platform) pinData,
       PinService.resetAttempts s) /\
  PinService.pinLockout pinData
    = Some (LockoutManager.toJson (lockoutManager s)) /\
  PinService.pinLockout pinData
    <> Some (LockoutManager.toJson LockoutManager.createDefaultState).
Proof.
  intros s pinData.
  destruct (createPinHashSafe_embeds_in_memory_lockout
              (P := Reference.platform)
              Sample.hashSalt Sample.encryptionSalt Sample.pin s
              eq_refl sample_pin_wellformed) as (Hcreate & Hlock & Hne).
  split; [reflexivity | split; [exact sample_pin_wellformed |]].
  split; [reflexivity | split; [exact Hcreate | split; [exact Hlock |]]].
  apply Hne. vm_compute. discriminate.
Defined.

(** The record created right after an unreadable record was presented,
    read back through the platform. *)
Lemma createPinHash_after_unreadable_record :
  let created :=
    PinService.createPinHash (P := Reference.platform)
      Sample.hashSalt Sample.encryptionSalt Sample.pin
      Sample.afterUnreadable in
  exists (record : string) (pinData : json),
    fst created = Some record /\
    PinService.decryptPinData (P := Reference.platform) record = Ok pinData /\
    PinService.pinLockout pinData
      = Some (LockoutManager.toJson
                {| count := 5;
                   lastAttempt := Sample.t0;
                   lockedUntil := Some (Sample.t0 + 3600000);
                   lockoutCount := 12 |}) /\
    lockoutManager (snd created) = LockoutManager.createDefaultState.
Proof.
  intros created.
  destruct created as [[record |] s1] eqn:Hcreated;
    [| vm_compute in Hcreated; discriminate].
  vm_compute in Hcreated. injection Hcreated as <- <-.
  eexists. eexists. split; [reflexivity |].
  split; [vm_compute; reflexivity |].
  split; reflexivity.
Qed.

Lemma createPin_then_verifyPin_locked_witness :
  let s := Sample.afterUnreadable in
  let now := Sample.t0 + 5000 in
  let nowLoad := Sample.t0 + 5001 in
  let created :=
    PinService.createPinHash (P := Reference.platform)
      Sample.hashSalt Sample.encryptionSalt Sample.pin s in
  exists (record : string) (s1 : PinServiceState),
    created = (Some record, s1) /\
    PinService.verifyPin (P := Reference.platform)
      now nowLoad Sample.pin record s1
    = (Returned {| success := false;
                   locked := true;
                   remainingAttempts := 0;
                   lockoutSeconds := Some 3595;
                   updatedEncryptedData := None |},
       withLockout (lockoutManager s) s1).
Proof.
  intros s now nowLoad created.
  destruct created as [[record |] s1] eqn:Hcreated;
    [| vm_compute in Hcreated; discriminate].
  exists record, s1. split; [reflexivity |].
  apply (createPin_then_verifyPin_locked (P := Reference.platform)
           now nowLoad (Sample.t0 + 3600000)
           Sample.hashSalt Sample.encryptionSalt Sample.pin record s s1).
  - reflexivity.
  - vm_compute. split; discriminate.
  - vm_compute. reflexivity.
  - right. vm_compute. discriminate.
  - exact Hcreated.
  - vm_compute in Hcreated. injection Hcreated as <- <-.
    vm_compute. reflexivity.
Defined.

Section SessionKey.
Context {P : Platform}.

(** A call that reports success went through the successful branch of the
    comparison. *)
Lemma verifyPin_success_inv (now nowLoad : Z) (pin record : string)
                            (s s' : PinServiceState) (r : VerifyPinResult) :
  PinService.verifyPin now nowLoad pin record s = (Returned r, s') ->
  success r = true ->
  exists (pinData : json) (s2 : PinServiceState),
    PinService.decryptPinData record = Ok pinData /\
    derivedEncryptionKey s2 = derivedEncryptionKey s /\
    PinService.handleSuccessfulVerification pin pinData s2 = (Returned r, s').
Proof.
  unfold PinService.verifyPin.
  destruct (PinService.validatePinFormat pin); cbn [negb].
  2: { intros H. injection H as <- <-. discriminate. }
  destruct (PinService.decryptPinData record) as [pinData | e].
  2: { cbn. intros H. injection H as <- <-. discriminate. }
  destruct (LockoutManager.isLocked now _) as [seconds |].
  { intros H. injection H as <- <-. discriminate. }
  unfold PinService.performVerification.
  destruct (timingSafeEqual _ _) as [[|] |].
  - intros H _.
    eexists. eexists. split; [reflexivity |]. split; [| exact H].
    reflexivity.
  - unfold PinService.handleFailedVerification.
    destruct (LockoutManager.recordFailure now _) as [fr l1].
    intros H. injection H as <- <-. discriminate.
  - discriminate.
Qed.

(** A successful branch that returned did not stop at [Buffer.from]. *)
Lemma handleSuccessfulVerification_returned
      (pin : string) (pinData : json) (s s' : PinServiceState)
      (r : VerifyPinResult) :
  PinService.handleSuccessfulVerification pin pinData s = (Returned r, s') ->
  match PinService.pinEncryptionSalt pinData with
  | Some value =>
      if truthy (Some value)
      then exists salt : Buffer,
             PinService.bufferFrom value = Returned salt /\
             derivedEncryptionKey s'
             = Some (PinService.deriveEncryptionKey pin salt)
      else derivedEncryptionKey s' = derivedEncryptionKey s
  | None => derivedEncryptionKey s' = derivedEncryptionKey s
  end.
Proof.
  intros Hbranch.
  pose proof (handleSuccessfulVerification_key pin pinData s) as Hkey.
  cbv zeta in Hkey.
  unfold PinService.handleSuccessfulVerification in Hbranch.
  cbv zeta in Hbranch.
  destruct (PinService.pinEncryptionSalt pinData) as [value |].
  - destruct (truthy (Some value)).
    + destruct (PinService.bufferFrom value) as [salt | exn];
        [| discriminate].
      apply (f_equal snd) in Hbranch. cbn [snd] in Hbranch.
      exists salt. split; [reflexivity |]. rewrite <- Hbranch.
      apply setDerivedKey_key.
    + apply (f_equal snd) in Hbranch. cbn [snd] in Hbranch.
      rewrite <- Hbranch. reflexivity.
  - apply (f_equal snd) in Hbranch. cbn [snd] in Hbranch.
    rewrite <- Hbranch. reflexivity.
Qed.

(** C9 as amended: after a [verifyPin] call that returned success on a
    record whose [encryptionSalt] is truthy, the cached key is
    [pbkdf2Sync(pin, Buffer.from(encryptionSalt, 'base64'), 50000, 32,
    'sha256')] whatever key was cached before, [hasEncryptionKey()] is
    true, and the session operations run the cipher with that key; for a
    non-empty string the buffer is its base64 decoding.  When the record's
    [encryptionSalt] is absent or falsy (the empty string, [null], [false],
    [0]), the cached key is left as it was. *)
Theorem verifyPin_success_session_key :
  forall (now nowLoad : Z) (pin record : string) (pinData : json)
         (s s' : PinServiceState) (r : VerifyPinResult),
    PinService.verifyPin now nowLoad pin record s = (Returned r, s') ->
    success r = true ->
    PinService.decryptPinData record = Ok pinData ->
    (truthy (PinService.pinEncryptionSalt pinData) = true ->
     exists (value : json) (salt : Buffer),
       PinService.pinEncryptionSalt pinData = Some value /\
       PinService.bufferFrom value = Returned salt /\
       derivedEncryptionKey s'
         = Some (pbkdf2Sync pin salt 50000 32 "sha256") /\
       PinService.hasEncryptionKey s' = true /\
       (forall (iv : Buffer) (data : string),
           PinService.encryptWithVerifiedKey iv data s'
           = PinService.encryptWithKey iv data
               (PinService.deriveEncryptionKey pin salt)) /\
       (forall blob : string,
           PinService.decryptWithVerifiedKey blob s'
           = PinService.decryptWithKey blob
               (PinService.deriveEncryptionKey pin salt))) /\
    (forall es : string,
        PinService.pinEncryptionSalt pinData = Some (JStr es) ->
        es <> EmptyString ->
        derivedEncryptionKey s'
          = Some (pbkdf2Sync pin (fromBase64 es) 50000 32 "sha256")) /\
    (truthy (PinService.pinEncryptionSalt pinData) = false ->
     derivedEncryptionKey s' = derivedEncryptionKey s).
Proof.
  intros now nowLoad pin record pinData s s' r Hcall Hok Hdec.
  destruct (verifyPin_success_inv now nowLoad pin record s s' r Hcall Hok)
    as (pinData' & s2 & Hdec' & Hkey & Hbranch).
  rewrite Hdec in Hdec'. injection Hdec' as <-.
  apply handleSuccessfulVerification_returned in Hbranch.
  destruct (PinService.pinEncryptionSalt pinData) as [value |] eqn:Hvalue.
  - destruct (truthy (Some value)) eqn:Htruthy.
    + destruct Hbranch as (salt & Hbuf & Hk).
      split; [| split; [| discriminate]].
      * intros _. exists value, salt.
        split; [reflexivity | split; [exact Hbuf | split; [exact Hk |]]].
        unfold PinService.hasEncryptionKey, PinService.encryptWithVerifiedKey,
          PinService.decryptWithVerifiedKey.
        rewrite Hk. repeat split.
      * intros es Hes _. apply some_eq in Hes. subst value.
        cbn [PinService.bufferFrom] in Hbuf.
        assert (Hsalt : fromBase64 es = salt) by congruence.
        rewrite Hsalt. exact Hk.
    + split; [discriminate | split].
      * intros es Hes Hne. apply some_eq in Hes. subst value.
        destruct es; [contradiction | discriminate].
      * intros _. rewrite Hbranch. exact Hkey.
  - split; [discriminate | split; [discriminate |]].
    intros _. rewrite Hbranch. exact Hkey.
Qed.

End SessionKey.

(** C9, counterexample: a structurally valid record without an
    [encryptionSalt] verifies the correct PIN, and afterwards no key is
    cached: [hasEncryptionKey()] is false and [encryptWithVerifiedKey]
    returns null. *)
Lemma verifyPin_success_without_session_key :
  let out :=
    PinService.verifyPin (P := Reference.platform)
      Sample.t0 (Sample.t0 + 1) Sample.pin Sample.legacyRecord
      PinService.new in
  outline (fst out) = Some (true, false, 5, None) /\
  PinService.hasEncryptionKey (snd out) = false /\
  PinService.encryptWithVerifiedKey (P := Reference.platform)
    Sample.iv "secret" (snd out) = None.
Proof. vm_compute. repeat split. Qed.

(** A record whose [encryptionSalt] is the array [[1, 2, 3]], outside its
    declared type: the guard is passed, [Buffer.from] reads the three
    bytes, and the key derived from them is cached. *)
Example verifyPin_array_salt_caches_key :
  let out :=
    PinService.verifyPin (P := Reference.platform)
      Sample.t0 (Sample.t0 + 1) Sample.pin
      (Sample.recordWithSalt (JArr [JNum 1; JNum 2; JNum 3]))
      PinService.new in
  outline (fst out) = Some (true, false, 5, None) /\
  derivedEncryptionKey (snd out)
    = Some (PinService.deriveEncryptionKey (P := Reference.platform)
              Sample.pin [x01; x02; x03]).
Proof. vm_compute. split; reflexivity. Qed.

(** A record whose [encryptionSalt] is the number [5]: the PIN matches, the
    lockout is reset and the verified flag set, and then [Buffer.from]
    refuses the number, so that the call throws instead of returning. *)
Example verifyPin_numeric_salt_throws :
  PinService.verifyPin (P := Reference.platform)
    Sample.t0 (Sample.t0 + 1) Sample.pin
    (Sample.recordWithSalt (JNum 5)) PinService.new
  = (Threw "TypeError",
     {| isPinVerified := true;
        derivedEncryptionKey := None;
        lockoutManager := LockoutManager.createDefaultState |}).
Proof. vm_compute. reflexivity. Qed.

Lemma verifyPin_success_session_key_witness :
  let out :=
    PinService.verifyPin (P := Reference.platform)
      Sample.t0 (Sample.t0 + 1) Sample.pin Sample.freshRecord
      PinService.new in
  exists (r : VerifyPinResult) (es : string),
    fst out = Returned r /\
    success r = true /\
    es <> EmptyString /\
    derivedEncryptionKey (snd out)
      = Some (pbkdf2Sync (Platform := Reference.platform)
                Sample.pin (fromBase64 (Platform := Reference.platform) es)
                50000 32 "sha256") /\
    PinService.hasEncryptionKey (snd out) = true.
Proof.
  intros out.
  destruct out as [c s'] eqn:Hout.
  destruct c as [r | e]; [| vm_compute in Hout; discriminate].
  exists r, (toBase64 (Platform := Reference.platform) Sample.encryptionSalt).
  assert (Hok : success r = true)
    by (vm_compute in Hout; injection Hout as <- _; reflexivity).
  assert (Hne : toBase64 (Platform := Reference.platform) Sample.encryptionSalt
                <> EmptyString) by (vm_compute; discriminate).
  destruct (verifyPin_success_session_key (P := Reference.platform)
              Sample.t0 (Sample.t0 + 1) Sample.pin Sample.freshRecord
              (PinService.newPinData (P := Reference.platform)
                 (PinService.hashPin (P := Reference.platform)
                    Sample.pin Sample.hashSalt)
                 Sample.hashSalt Sample.encryptionSalt
                 LockoutManager.createDefaultState)
              PinService.new s' r Hout Hok) as (Htruthy & Hstring & _).
  { vm_compute. reflexivity. }
  destruct (Htruthy eq_refl) as (value & salt & _ & _ & _ & Hhas & _).
  pose proof (Hstring _ eq_refl Hne) as Hk.
  cbn [fst snd]. repeat split; assumption.
Defined.

Section PayloadEncryption.
Context {P : Platform} {L : CipherLaws P}.

(** The three pieces [decryptWithKey] cuts out of [iv || tag || ciphertext]. *)
Lemma combined_layout (iv authTag encrypted : Buffer) :
  Z.of_nat (List.length iv) = encryption.ivLength ->
  Z.of_nat (List.length authTag) = encryption.authTagLength ->
  let combined := (iv ++ authTag ++ encrypted)%list in
  subarray combined 0 encryption.ivLength = iv /\
  subarray combined encryption.ivLength
           (encryption.ivLength + encryption.authTagLength) = authTag /\
  subarrayFrom combined (encryption.ivLength + encryption.authTagLength)
    = encrypted.
Proof.
  intros Hiv Htag combined. subst combined.
  unfold encryption.ivLength, encryption.authTagLength in *.
  assert (Hiv' : List.length iv = 16%nat) by lia.
  assert (Htag' : List.length authTag = 16%nat) by lia.
  unfold subarray, subarrayFrom.
  change (Z.to_nat (16 - 0)) with 16%nat.
  change (Z.to_nat 0) with 0%nat.
  change (Z.to_nat (16 + 16 - 16)) with 16%nat.
  change (Z.to_nat 16) with 16%nat.
  change (Z.to_nat (16 + 16)) with (16 + 16)%nat.
  assert (Hskip : skipn 16 (iv ++ authTag ++ encrypted)
                  = (authTag ++ encrypted)%list).
  { rewrite <- Hiv', skipn_app, skipn_all, Nat.sub_diag. reflexivity. }
  repeat split.
  - cbn [skipn].
    rewrite <- Hiv', firstn_app, firstn_all, Nat.sub_diag.
    cbn [firstn]. apply app_nil_r.
  - rewrite Hskip.
    rewrite <- Htag', firstn_app, firstn_all, Nat.sub_diag.
    cbn [firstn]. apply app_nil_r.
  - rewrite <- skipn_skipn, Hskip.
    rewrite <- Htag', skipn_app, skipn_all, Nat.sub_diag. reflexivity.
Qed.

(** What [decryptWithKey] makes of a blob [encryptWithKey] wrote with the
    same key: the text UTF-8 decoding reads from the encoded data. *)
Lemma encryptWithKey_decryptWithKey (iv : Buffer) (data blob : string)
                                    (key : Buffer) :
  Z.of_nat (List.length iv) = encryption.ivLength ->
  PinService.encryptWithKey iv data key = Some blob ->
  PinService.decryptWithKey blob key = Some (utf8Decode (utf8Encode data)).
Proof.
  intros Hiv. unfold PinService.encryptWithKey.
  destruct (cipherSeal encryption.algorithm key iv (utf8Encode data))
    as [[encrypted authTag] |] eqn:Hseal; [| discriminate].
  intros H. injection H as <-.
  unfold PinService.decryptWithKey. rewrite base64_roundtrip.
  destruct (combined_layout iv authTag encrypted Hiv
              (cipher_tag_length _ _ _ _ _ Hseal)) as (-> & -> & ->).
  rewrite (cipher_roundtrip _ _ _ _ _ _ Hseal). reflexivity.
Qed.

(** C10 as amended: whenever [encryptWithPin(data, pin, salt)] returns a
    blob, with whatever 16-byte nonce [randomBytes] produced,
    [decryptWithPin] of that blob with the same PIN and salt returns the
    text that UTF-8 decoding reads from the UTF-8 encoding of [data]; it
    returns exactly [data] if, and only if, [data] comes through UTF-8
    unchanged, as every text without an unpaired surrogate does. *)
Theorem encryptWithPin_decryptWithPin :
  forall (iv : Buffer) (data pin encryptionSalt blob : string),
    Z.of_nat (List.length iv) = encryption.ivLength ->
    PinService.encryptWithPin iv data pin encryptionSalt = Some blob ->
    PinService.decryptWithPin blob pin encryptionSalt
      = Some (utf8Decode (utf8Encode data)) /\
    (PinService.decryptWithPin blob pin encryptionSalt = Some data <->
     utf8Decode (utf8Encode data) = data).
Proof.
  intros iv data pin encryptionSalt blob Hiv Henc.
  unfold PinService.encryptWithPin in Henc. unfold PinService.decryptWithPin.
  rewrite (encryptWithKey_decryptWithKey iv data blob _ Hiv Henc).
  split; [reflexivity |].
  split; [intros H; apply some_eq in H; exact H | intros ->; reflexivity].
Qed.

(** X19: the round trip with the cached session key: whenever
    [encryptWithVerifiedKey] returns a blob for a text that comes through
    UTF-8 unchanged, [decryptWithVerifiedKey] of that blob in the same
    session returns the text. *)
Lemma encryptWithVerifiedKey_decryptWithVerifiedKey
      (iv : Buffer) (data blob : string) (s : PinServiceState) :
  Z.of_nat (List.length iv) = encryption.ivLength ->
  utf8Decode (utf8Encode data) = data ->
  PinService.encryptWithVerifiedKey iv data s = Some blob ->
  PinService.decryptWithVerifiedKey blob s = Some data.
Proof.
  intros Hiv Htext. unfold PinService.encryptWithVerifiedKey,
    PinService.decryptWithVerifiedKey.
  destruct (derivedEncryptionKey s) as [key |]; [| discriminate].
  intros Henc.
  rewrite (encryptWithKey_decryptWithKey iv data blob key Hiv Henc), Htext.
  reflexivity.
Qed.

End PayloadEncryption.

Lemma reference_byte_roundtrip (x : byte) :
  Reference.hexValue (Reference.hexDigit (Byte.to_N x / 16))
    = Some (Byte.to_N x / 16)%N /\
  Reference.hexValue (Reference.hexDigit (Byte.to_N x mod 16))
    = Some (Byte.to_N x mod 16)%N /\
  Byte.of_N (16 * (Byte.to_N x / 16) + Byte.to_N x mod 16) = Some x.
Proof. destruct x; vm_compute; repeat split. Qed.

Lemma reference_decode_encode (b : Buffer) :
  Reference.decodeBuffer (Reference.encodeBuffer b) = b.
Proof.
  induction b as [| x rest IH]; [reflexivity |].
  cbn [Reference.encodeBuffer Reference.decodeBuffer].
  destruct (reference_byte_roundtrip x) as (-> & -> & ->).
  rewrite IH. reflexivity.
Qed.

(** The executable platform satisfies the assumptions of payload
    encryption. *)
Lemma reference_cipher_laws : CipherLaws Reference.platform.
Proof.
  constructor.
  - exact reference_decode_encode.
  - intros algorithm key iv plaintext encrypted authTag.
    cbn [cipherSeal cipherOpen Reference.platform].
    unfold Reference.seal, Reference.open.
    destruct (List.length key =? 32)%nat; [| discriminate].
    intros H. injection H as <- <-.
    rewrite bufferEqb_refl, rev_involutive. reflexivity.
  - intros key iv plaintext encrypted authTag.
    cbn [cipherSeal Reference.platform]. unfold Reference.seal.
    destruct (Nat.eqb_spec (List.length key) 32) as [Hlen | _];
      [| discriminate].
    intros H. apply some_eq in H. apply (f_equal snd) in H.
    cbn [snd] in H. subst authTag.
    rewrite length_firstn, Hlen. reflexivity.
Qed.

Lemma encryptWithPin_decryptWithPin_witness :
  let salt := toBase64 (Platform := Reference.platform) Sample.encryptionSalt in
  exists blob : string,
    Z.of_nat (List.length Sample.iv) = encryption.ivLength /\
    utf8Decode (Platform := Reference.platform)
      (utf8Encode (Platform := Reference.platform) "session cookie")
      = "session cookie" /\
    PinService.encryptWithPin (P := Reference.platform)
      Sample.iv "session cookie" Sample.pin salt = Some blob /\
    PinService.decryptWithPin (P := Reference.platform)
      blob Sample.pin salt = Some "session cookie".
Proof.
  intros salt.
  destruct (PinService.encryptWithPin (P := Reference.platform)
              Sample.iv "session cookie" Sample.pin salt)
    as [blob |] eqn:Henc; [| vm_compute in Henc; discriminate].
  exists blob.
  split; [reflexivity | split; [reflexivity | split; [reflexivity |]]].
  destruct (encryptWithPin_decryptWithPin (L := reference_cipher_laws)
              Sample.iv "session cookie" Sample.pin salt blob eq_refl Henc)
    as [_ Hexact].
  apply Hexact. reflexivity.
Defined.

(** C10, counterexample: a text that holds an unpaired surrogate is
    encrypted, and the blob decrypts, with the same PIN and salt, to another
    text, in which U+FFFD stands where the surrogate stood. *)
Lemma encryptWithPin_decryptWithPin_unpaired_surrogate :
  let salt := toBase64 (Platform := Reference.platform) Sample.encryptionSalt in
  exists blob : string,
    PinService.encryptWithPin (P := Reference.platform)
      Sample.iv Sample.unpairedSurrogate Sample.pin salt = Some blob /\
    PinService.decryptWithPin (P := Reference.platform)
      blob Sample.pin salt = Some Sample.replacementCharacter /\
    Sample.replacementCharacter <> Sample.unpairedSurrogate.
Proof.
  intros salt. eexists.
  split; [vm_compute; reflexivity |].
  split; [vm_compute; reflexivity |].
  vm_compute. discriminate.
Qed.

Section FailedAttempts.
Context {P : Platform}.

(** One attempt with a PIN whose hash differs from the stored one, on a
    record that is not locked once loaded. *)
Lemma verifyPin_mismatch (now nowLoad : Z) (pin record : string)
                         (pinData : json) (s : PinServiceState) :
  PinService.validatePinFormat pin = true ->
  PinService.decryptPinData record = Ok pinData ->
  let loaded :=
    LockoutManager.checkAndUpdateExpiry now
      (LockoutManager.loadFromPinData nowLoad (PinService.pinLockout pinData)) in
  let failure := LockoutManager.recordFailure now loaded in
  LockoutManager.isLocked now loaded = None ->
  timingSafeEqual
    (fromBase64 (PinService.pinHash pinData))
    (PinService.hashPin pin (fromBase64 (PinService.pinSalt pinData)))
    = Some false ->
  PinService.verifyPin now nowLoad pin record s
  = (Returned
       {| success := false;
          locked := failLocked (fst failure);
          remainingAttempts := failRemainingAttempts (fst failure);
          lockoutSeconds := failLockoutSeconds (fst failure);
          updatedEncryptedData :=
            PinService.okValue
              (PinService.encryptPinData
                 (spreadWith pinData "lockout"
                    (LockoutManager.toJson (snd failure)))) |},
     withLockout (snd failure) s).
Proof.
  intros Hpin Hdec loaded failure Hfree Hneq.
  unfold PinService.verifyPin. rewrite Hpin, Hdec. cbn [negb].
  fold loaded. rewrite Hfree.
  unfold PinService.performVerification. rewrite Hneq.
  unfold PinService.handleFailedVerification. cbn [lockoutManager withLockout].
  fold failure. destruct failure as [fr l1]. reflexivity.
Qed.

(** The attempt that reaches the threshold, on a record that carries
    [count = 4] and a recent last attempt: the lock lasts
    [300 * min (min (lockoutCount + 1) 12 + 1) 12] seconds, which is 600 on
    a record that was never locked before. *)
Lemma verifyPin_mismatch_at_threshold
      (now nowLoad lastTry escalation : Z) (pin record : string)
      (pinData : json) (s : PinServiceState) :
  PinService.validatePinFormat pin = true ->
  PinService.decryptPinData record = Ok pinData ->
  PinService.pinLockout pinData
    = Some (LockoutManager.toJson
              {| count := 4; lastAttempt := lastTry;
                 lockedUntil := None; lockoutCount := escalation |}) ->
  lastTry <= now <= nowLoad ->
  nowLoad - lastTry <= rateLimit.attemptResetMs ->
  timingSafeEqual
    (fromBase64 (PinService.pinHash pinData))
    (PinService.hashPin pin (fromBase64 (PinService.pinSalt pinData)))
    = Some false ->
  exists (r : VerifyPinResult) (s' : PinServiceState),
    PinService.verifyPin now nowLoad pin record s = (Returned r, s') /\
    success r = false /\
    locked r = true /\
    remainingAttempts r = 0 /\
    lockoutSeconds r = Some (300 * appliedMultiplier escalation) /\
    lockedUntil (lockoutManager s')
      = Some (now + rateLimit.baseLockoutMs * appliedMultiplier escalation).
Proof.
  intros Hpin Hdec Hlock Hnow Hrecent Hneq.
  set (st := {| count := 4; lastAttempt := lastTry;
                lockedUntil := None; lockoutCount := escalation |}) in *.
  assert (Hload : LockoutManager.loadFromPinData nowLoad
                    (PinService.pinLockout pinData) = st).
  { rewrite Hlock, (loadFromPinData_valid _ _ (toJson_valid st)), ofJson_toJson.
    cbv zeta. cbn [lockedUntil st truthyOptNum andb lastAttempt].
    destruct (Z.ltb_spec rateLimit.attemptResetMs (nowLoad - lastTry));
      [lia |].
    rewrite andb_false_r. reflexivity. }
  assert (Hcheck : LockoutManager.checkAndUpdateExpiry now st = st).
  { unfold LockoutManager.checkAndUpdateExpiry.
    cbn [lockedUntil st truthyOptNum andb lastAttempt].
    destruct (Z.ltb_spec rateLimit.attemptResetMs (now - lastTry)); [lia |].
    rewrite andb_false_r. reflexivity. }
  pose proof (verifyPin_mismatch now nowLoad pin record pinData s Hpin Hdec)
    as Hstep.
  cbv zeta in Hstep. rewrite Hload, Hcheck in Hstep.
  specialize (Hstep eq_refl Hneq).
  rewrite (recordFailure_at_threshold now st) in Hstep
    by (cbn; unfold_config; lia).
  cbn [fst snd failLocked failRemainingAttempts failLockoutSeconds] in Hstep.
  eexists. eexists. split; [exact Hstep |].
  cbn. repeat split.
Qed.

(** The comparison throws when the stored hash does not have the length of
    a derived hash; the exception leaves [verifyPin] with the loaded lockout
    state in place and no attempt recorded. *)
Lemma verifyPin_throws_on_hash_length (now nowLoad : Z) (pin record : string)
                                      (pinData : json) (s : PinServiceState) :
  PinService.validatePinFormat pin = true ->
  PinService.decryptPinData record = Ok pinData ->
  let loaded :=
    LockoutManager.checkAndUpdateExpiry now
      (LockoutManager.loadFromPinData nowLoad (PinService.pinLockout pinData)) in
  LockoutManager.isLocked now loaded = None ->
  List.length (fromBase64 (PinService.pinHash pinData))
    <> List.length
         (PinService.hashPin pin (fromBase64 (PinService.pinSalt pinData))) ->
  PinService.verifyPin now nowLoad pin record s
  = (Threw "RangeError", withLockout loaded s).
Proof.
  intros Hpin Hdec loaded Hfree Hlen.
  unfold PinService.verifyPin. rewrite Hpin, Hdec. cbn [negb].
  fold loaded. rewrite Hfree.
  unfold PinService.performVerification, timingSafeEqual.
  destruct (Nat.eqb_spec
              (List.length (fromBase64 (PinService.pinHash pinData)))
              (List.length
                 (PinService.hashPin pin
                    (fromBase64 (PinService.pinSalt pinData)))))
    as [Heq | _]; [contradiction | reflexivity].
Qed.

End FailedAttempts.

Section FiveWrongAttempts.
Context {P : Platform}.

(** One wrong attempt below the threshold, on a record written by the
    service that carries no lock and a recent (or no) last attempt. *)
Lemma verifyPin_mismatch_below_threshold
      (now nowLoad failures lastTry escalation : Z) (h salt es : Buffer)
      (wrong record : string) (s : PinServiceState) :
  PinService.validatePinFormat wrong = true ->
  PinService.decryptPinData record
    = Ok (PinService.newPinData h salt es
            {| count := failures; lastAttempt := lastTry;
               lockedUntil := None; lockoutCount := escalation |}) ->
  failures + 1 < rateLimit.maxAttempts ->
  now <= nowLoad ->
  lastTry = 0 \/ nowLoad - lastTry <= rateLimit.attemptResetMs ->
  timingSafeEqual (fromBase64 (toBase64 h))
                  (PinService.hashPin wrong (fromBase64 (toBase64 salt)))
    = Some false ->
  PinService.verifyPin now nowLoad wrong record s
  = (Returned
       {| success := false;
          locked := false;
          remainingAttempts := rateLimit.maxAttempts - (failures + 1);
          lockoutSeconds := None;
          updatedEncryptedData :=
            PinService.okValue
              (PinService.encryptPinData
                 (PinService.newPinData h salt es
                    {| count := failures + 1; lastAttempt := now;
                       lockedUntil := None; lockoutCount := escalation |})) |},
     withLockout {| count := failures + 1; lastAttempt := now;
                    lockedUntil := None; lockoutCount := escalation |} s).
Proof.
  intros Hpin Hdec Hbelow Hnow Hrecent Hneq.
  set (st := {| count := failures; lastAttempt := lastTry;
                lockedUntil := None; lockoutCount := escalation |}) in *.
  assert (Hload : LockoutManager.loadFromPinData nowLoad
                    (PinService.pinLockout (PinService.newPinData h salt es st))
                  = st).
  { rewrite newPinData_lockout,
      (loadFromPinData_valid _ _ (toJson_valid st)), ofJson_toJson.
    cbv zeta. cbn [lockedUntil st truthyOptNum andb lastAttempt].
    unfold truthyNum. destruct (Z.eqb_spec lastTry 0) as [H0 | Hn0];
      [reflexivity |].
    destruct (Z.ltb_spec rateLimit.attemptResetMs (nowLoad - lastTry));
      [| reflexivity].
    destruct Hrecent; [contradiction | lia]. }
  assert (Hcheck : LockoutManager.checkAndUpdateExpiry now st = st).
  { unfold LockoutManager.checkAndUpdateExpiry.
    cbn [lockedUntil st truthyOptNum andb lastAttempt].
    unfold truthyNum. destruct (Z.eqb_spec lastTry 0) as [H0 | Hn0];
      [reflexivity |].
    destruct (Z.ltb_spec rateLimit.attemptResetMs (now - lastTry));
      [| reflexivity].
    destruct Hrecent; [contradiction | lia]. }
  pose proof (verifyPin_mismatch now nowLoad wrong record _ s Hpin Hdec)
    as Hstep.
  cbv zeta in Hstep. rewrite Hload, Hcheck in Hstep.
  specialize (Hstep eq_refl Hneq).
  rewrite (recordFailure_below_threshold now st Hbelow) in Hstep.
  exact Hstep.
Qed.

(** C1, what the code does: on a record freshly created with the zero
    lockout state, four wrong PINs in a row (each attempt within the
    15-minute window of the previous one, each updated record stored and
    read back) are answered with [locked: false] and 4, 3, 2, 1 remaining
    attempts, and the fifth with [locked: true], no remaining attempt and a
    lockout of 600 seconds (ten minutes), not 300. *)
Theorem five_wrong_attempts_lock_for_600_seconds :
  forall (h salt es : Buffer) (wrong : string)
         (r0 r1 r2 r3 r4 : string)
         (t1 t2 t3 t4 t5 u1 u2 u3 u4 u5 : Z) (s : PinServiceState),
    let carrying failures lastTry :=
      PinService.newPinData h salt es
        {| count := failures; lastAttempt := lastTry;
           lockedUntil := None; lockoutCount := 0 |} in
    let stored pinData record :=
      PinService.encryptPinData pinData = Ok record /\
      PinService.decryptPinData record = Ok pinData in
    sixDecimalDigits wrong ->
    timingSafeEqual (fromBase64 (toBase64 h))
                    (PinService.hashPin wrong (fromBase64 (toBase64 salt)))
      = Some false ->
    PinService.decryptPinData r0 = Ok (carrying 0 0) ->
    stored (carrying 1 t1) r1 ->
    stored (carrying 2 t2) r2 ->
    stored (carrying 3 t3) r3 ->
    stored (carrying 4 t4) r4 ->
    t1 <= u1 /\ u1 <= t2 <= u2 /\ u2 <= t3 <= u3 /\ u3 <= t4 <= u4 /\
    u4 <= t5 <= u5 ->
    u2 - t1 <= rateLimit.attemptResetMs /\
    u3 - t2 <= rateLimit.attemptResetMs /\
    u4 - t3 <= rateLimit.attemptResetMs /\
    u5 - t4 <= rateLimit.attemptResetMs ->
    map outline
      (fst (Caller.attempts
              [(t1, u1); (t2, u2); (t3, u3); (t4, u4); (t5, u5)]
              wrong r0 s))
    = [Some (false, false, 4, None);
       Some (false, false, 3, None);
       Some (false, false, 2, None);
       Some (false, false, 1, None);
       Some (false, true, 0, Some 600)].
Proof.
  intros h salt es wrong r0 r1 r2 r3 r4 t1 t2 t3 t4 t5 u1 u2 u3 u4 u5 s
         carrying stored Hpin Hneq H0 [He1 Hd1] [He2 Hd2] [He3 Hd3] [He4 Hd4]
         Horder Hwindow.
  apply validatePinFormat_spec in Hpin.
  subst carrying. cbv beta in *.
  cbn [Caller.attempts].
  rewrite (verifyPin_mismatch_below_threshold t1 u1 0 0 0 h salt es wrong r0 s
             Hpin H0) by (try assumption; unfold_config; lia).
  cbn [updatedEncryptedData Z.add]. rewrite He1. cbn [PinService.okValue].
  rewrite (verifyPin_mismatch_below_threshold t2 u2 1 t1 0 h salt es wrong r1 _
             Hpin Hd1) by (try assumption; unfold_config; lia).
  cbn [updatedEncryptedData Z.add Pos.add Pos.succ]. rewrite He2.
  cbn [PinService.okValue].
  rewrite (verifyPin_mismatch_below_threshold t3 u3 2 t2 0 h salt es wrong r2 _
             Hpin Hd2) by (try assumption; unfold_config; lia).
  cbn [updatedEncryptedData Z.add Pos.add Pos.succ]. rewrite He3.
  cbn [PinService.okValue].
  rewrite (verifyPin_mismatch_below_threshold t4 u4 3 t3 0 h salt es wrong r3 _
             Hpin Hd3) by (try assumption; unfold_config; lia).
  cbn [updatedEncryptedData Z.add Pos.add Pos.succ]. rewrite He4.
  cbn [PinService.okValue].
  destruct (verifyPin_mismatch_at_threshold t5 u5 t4 0 wrong r4 _
              (withLockout {| count := 4; lastAttempt := t4;
                              lockedUntil := None; lockoutCount := 0 |}
                 (withLockout {| count := 3; lastAttempt := t3;
                                 lockedUntil := None; lockoutCount := 0 |}
                    (withLockout {| count := 2; lastAttempt := t2;
                                    lockedUntil := None; lockoutCount := 0 |}
                       (withLockout {| count := 1; lastAttempt := t1;
                                       lockedUntil := None;
                                       lockoutCount := 0 |} s))))
              Hpin Hd4 (newPinData_lockout _ _ _ _))
    as (r & s' & Hlast & Hs & Hl & Hr & Hsec & _);
    [lia | lia | exact Hneq |].
  rewrite Hlast.
  destruct (updatedEncryptedData r); cbn [map fst outline];
    rewrite Hs, Hl, Hr, Hsec; reflexivity.
Qed.

End FiveWrongAttempts.

Lemma five_wrong_attempts_lock_for_600_seconds_witness :
  let clock := [(Sample.t0, Sample.t0 + 1);
                (Sample.t0 + 10000, Sample.t0 + 10001);
                (Sample.t0 + 20000, Sample.t0 + 20001);
                (Sample.t0 + 30000, Sample.t0 + 30001);
                (Sample.t0 + 40000, Sample.t0 + 40001)] in
  sixDecimalDigits Sample.wrongPin /\
  map outline
    (fst (Caller.attempts (P := Reference.platform)
            clock Sample.wrongPin Sample.freshRecord PinService.new))
  = [Some (false, false, 4, None);
     Some (false, false, 3, None);
     Some (false, false, 2, None);
     Some (false, false, 1, None);
     Some (false, true, 0, Some 600)].
Proof.
  intros clock.
  assert (Hwrong : sixDecimalDigits Sample.wrongPin)
    by (apply validatePinFormat_spec; reflexivity).
  split; [exact Hwrong |].
  pose (h := PinService.hashPin (P := Reference.platform)
               Sample.pin Sample.hashSalt).
  pose (carrying := fun failures lastTry =>
          PinService.newPinData (P := Reference.platform)
            h Sample.hashSalt Sample.encryptionSalt
            {| count := failures; lastAttempt := lastTry;
               lockedUntil := None; lockoutCount := 0 |}).
  apply (five_wrong_attempts_lock_for_600_seconds (P := Reference.platform)
           h Sample.hashSalt Sample.encryptionSalt Sample.wrongPin
           Sample.freshRecord
           (Caller.recordOf (P := Reference.platform)
              (carrying 1 Sample.t0))
           (Caller.recordOf (P := Reference.platform)
              (carrying 2 (Sample.t0 + 10000)))
           (Caller.recordOf (P := Reference.platform)
              (carrying 3 (Sample.t0 + 20000)))
           (Caller.recordOf (P := Reference.platform)
              (carrying 4 (Sample.t0 + 30000)))).
  - exact Hwrong.
  - vm_compute. reflexivity.
  - vm_compute. reflexivity.
  - split; vm_compute; reflexivity.
  - split; vm_compute; reflexivity.
  - split; vm_compute; reflexivity.
  - split; vm_compute; reflexivity.
  - vm_compute. repeat split; discriminate.
  - vm_compute. repeat split; discriminate.
Defined.

(* ========================================================================= *)
(** ** Further facts about the lockout manager                                *)
(* ========================================================================= *)

Lemma lockoutInvariant_default :
  LockoutInvariant LockoutManager.createDefaultState.
Proof.
  unfold LockoutInvariant.
  cbn [LockoutManager.createDefaultState count lockoutCount lockedUntil
       lastAttempt].
  unfold_config. split; [lia | split; [lia |]].
  intros u Hu. discriminate.
Qed.

Lemma lockoutInvariant_recordFailure (now : Z) (st : LockoutState) :
  LockoutInvariant st ->
  LockoutInvariant (snd (LockoutManager.recordFailure now st)).
Proof.
  intros (Hc & Hlc & Hlock).
  destruct (Z.lt_ge_cases (count st + 1) rateLimit.maxAttempts) as [Hlt | Hge].
  - rewrite (recordFailure_below_threshold now st Hlt). cbn [snd].
    unfold LockoutInvariant. cbn [count lockoutCount lockedUntil lastAttempt].
    split; [lia | split; [exact Hlc |]].
    intros u Hu. destruct (Hlock u Hu) as (Hfull & _). lia.
  - rewrite (recordFailure_at_threshold now st Hge). cbn [snd].
    unfold LockoutInvariant, appliedMultiplier.
    cbn [count lockoutCount lockedUntil lastAttempt].
    unfold_config. split; [lia | split; [lia |]].
    intros u Hu. apply some_eq in Hu. subst u. lia.
Qed.

Lemma lockoutInvariant_checkAndUpdateExpiry (now : Z) (st : LockoutState) :
  LockoutInvariant st ->
  LockoutInvariant (LockoutManager.checkAndUpdateExpiry now st).
Proof.
  intros (Hc & Hlc & Hlock). unfold LockoutManager.checkAndUpdateExpiry.
  destruct (truthyOptNum (lockedUntil st)
            && match lockedUntil st with
               | Some u => u <=? now
               | None => false
               end).
  - cbv zeta. cbn [lastAttempt].
    destruct (truthyNum (lastAttempt st)
              && (rateLimit.attemptResetMs <? now - lastAttempt st));
      [apply lockoutInvariant_default |].
    unfold LockoutInvariant. cbn [count lockoutCount lockedUntil lastAttempt].
    split; [lia | split; [exact Hlc | discriminate]].
  - cbv zeta.
    destruct (truthyNum (lastAttempt st)
              && (rateLimit.attemptResetMs <? now - lastAttempt st));
      [apply lockoutInvariant_default |].
    repeat split; try assumption; try lia; apply (Hlock u); assumption.
Qed.

Lemma lockoutInvariant_loadFromPinData (now : Z) (st : LockoutState) :
  LockoutInvariant st ->
  LockoutInvariant
    (LockoutManager.loadFromPinData now (Some (LockoutManager.toJson st))).
Proof.
  intros (Hc & Hlc & Hlock).
  rewrite (loadFromPinData_valid _ _ (toJson_valid st)), ofJson_toJson.
  cbv zeta.
  destruct (truthyOptNum (lockedUntil st)
            && match lockedUntil st with
               | Some u => u <=? now
               | None => false
               end).
  - unfold LockoutInvariant. cbn [count lockoutCount lockedUntil lastAttempt].
    split; [lia | split; [exact Hlc | discriminate]].
  - destruct (truthyNum (lastAttempt st)
              && (rateLimit.attemptResetMs <? now - lastAttempt st));
      [apply lockoutInvariant_default |].
    repeat split; try assumption; try lia; apply (Hlock u); assumption.
Qed.

(** X1: in every state the manager can reach from its constructor, through
    any sequence of its methods and of reloads of its own snapshots, the
    attempt count is not negative, [lockoutCount] lies between 0 and 12,
    and a lock is only present together with a used-up attempt count
    ([count >= 5]), at least one recorded escalation, and an end between 10
    and 60 minutes after [lastAttempt]. *)
Theorem managerReachable_invariant :
  forall st : LockoutState, ManagerReachable st -> LockoutInvariant st.
Proof.
  intros st Hreach.
  induction Hreach as [| now st _ IH | now | now st _ IH | now st _ IH
                       | st _ IH | now st _ IH | st _ IH].
  - apply lockoutInvariant_default.
  - apply lockoutInvariant_loadFromPinData. exact IH.
  - apply lockoutInvariant_default.
  - apply lockoutInvariant_checkAndUpdateExpiry. exact IH.
  - apply lockoutInvariant_recordFailure. exact IH.
  - apply lockoutInvariant_default.
  - cbn [snd LockoutManager.applyMaxLockout]. unfold LockoutInvariant.
    cbn [count lockoutCount lockedUntil lastAttempt]. unfold_config.
    split; [lia | split; [lia |]].
    intros u Hu. apply some_eq in Hu. subst u. lia.
  - apply lockoutInvariant_default.
Qed.

Lemma managerReachable_invariant_witness :
  let afterFive :=
    snd (LockoutManager.recordFailure (Sample.t0 + 40000)
      (snd (LockoutManager.recordFailure (Sample.t0 + 30000)
        (snd (LockoutManager.recordFailure (Sample.t0 + 20000)
          (snd (LockoutManager.recordFailure (Sample.t0 + 10000)
            (snd (LockoutManager.recordFailure Sample.t0
                    LockoutManager.createDefaultState))))))))) in
  lockedUntil afterFive = Some (Sample.t0 + 640000) /\
  ManagerReachable afterFive /\
  LockoutInvariant afterFive.
Proof.
  intros afterFive.
  assert (Hreach : ManagerReachable afterFive)
    by (repeat apply reach_recordFailure; apply reach_constructed).
  split; [reflexivity | split; [exact Hreach |]].
  exact (managerReachable_invariant afterFive Hreach).
Defined.

(** The result of [checkAndUpdateExpiry], by cases on its argument. *)
Lemma checkAndUpdateExpiry_cases (now : Z) (st : LockoutState) :
  let expired :=
    match lockedUntil st with
    | Some u => negb (u =? 0) && (u <=? now)
    | None => false
    end in
  let stale :=
    negb (lastAttempt st =? 0)
    && (rateLimit.attemptResetMs <? now - lastAttempt st) in
  LockoutManager.checkAndUpdateExpiry now st
  = if stale then LockoutManager.createDefaultState
    else if expired
         then {| count := 0; lastAttempt := lastAttempt st;
                 lockedUntil := None; lockoutCount := lockoutCount st |}
         else st.
Proof.
  unfold LockoutManager.checkAndUpdateExpiry, truthyOptNum, truthyNum.
  destruct st as [c la [u |] lc]; cbn [lockedUntil lastAttempt count lockoutCount].
  - destruct (negb (u =? 0) && (u <=? now)); cbn [lastAttempt];
      destruct (negb (la =? 0) && (rateLimit.attemptResetMs <? now - la));
      reflexivity.
  - cbn [andb lastAttempt].
    destruct (negb (la =? 0) && (rateLimit.attemptResetMs <? now - la));
      reflexivity.
Qed.

(** X2: [checkAndUpdateExpiry] is idempotent at a given clock reading, and
    what it returns holds no expired lock and no stale last attempt. *)
Theorem checkAndUpdateExpiry_idempotent :
  forall (now : Z) (st : LockoutState),
    let st' := LockoutManager.checkAndUpdateExpiry now st in
    LockoutManager.checkAndUpdateExpiry now st' = st' /\
    (forall u : Z, lockedUntil st' = Some u -> u <> 0 -> now < u) /\
    (lastAttempt st' = 0 \/ now - lastAttempt st' <= rateLimit.attemptResetMs).
Proof.
  intros now st st'. subst st'.
  rewrite (checkAndUpdateExpiry_cases now st). cbv zeta.
  destruct (Z.eqb_spec (lastAttempt st) 0) as [Hla | Hla]; cbn [negb andb].
  - assert (Hgoal :
      forall st1 : LockoutState,
        lastAttempt st1 = 0 ->
        (forall u, lockedUntil st1 = Some u -> u <> 0 -> now < u) ->
        LockoutManager.checkAndUpdateExpiry now st1 = st1 /\
        (forall u, lockedUntil st1 = Some u -> u <> 0 -> now < u) /\
        (lastAttempt st1 = 0 \/
         now - lastAttempt st1 <= rateLimit.attemptResetMs)).
    { intros st1 H0 Hrun. split; [| split; [exact Hrun | left; exact H0]].
      rewrite (checkAndUpdateExpiry_cases now st1). cbv zeta.
      rewrite H0. cbn [Z.eqb negb andb].
      destruct (lockedUntil st1) as [u |] eqn:Hu; [| reflexivity].
      destruct (Z.eqb_spec u 0) as [Hz | Hnz]; [reflexivity |].
      cbn [negb andb]. specialize (Hrun u eq_refl Hnz).
      destruct (Z.leb_spec u now); [lia | reflexivity]. }
    destruct (lockedUntil st) as [u |] eqn:Hu.
    + destruct (Z.eqb_spec u 0) as [Hz | Hnz]; cbn [negb andb].
      * apply Hgoal; [exact Hla |]. intros u' Hu' Hnz'.
        rewrite Hu in Hu'. apply some_eq in Hu'. congruence.
      * destruct (Z.leb_spec u now) as [Hle | Hgt].
        -- apply Hgoal; [exact Hla | discriminate].
        -- apply Hgoal; [exact Hla |]. intros u' Hu' _.
           rewrite Hu in Hu'. apply some_eq in Hu'. lia.
    + apply Hgoal; [exact Hla |]. rewrite Hu. discriminate.
  - destruct (Z.ltb_spec rateLimit.attemptResetMs (now - lastAttempt st))
      as [Hstale | Hfresh].
    + split; [reflexivity | split; [discriminate | left; reflexivity]].
    + assert (Hgoal :
        forall st1 : LockoutState,
          lastAttempt st1 = lastAttempt st ->
          (forall u, lockedUntil st1 = Some u -> u <> 0 -> now < u) ->
          LockoutManager.checkAndUpdateExpiry now st1 = st1 /\
          (forall u, lockedUntil st1 = Some u -> u <> 0 -> now < u) /\
          (lastAttempt st1 = 0 \/
           now - lastAttempt st1 <= rateLimit.attemptResetMs)).
      { intros st1 Hsame Hrun.
        split; [| split; [exact Hrun | right; rewrite Hsame; exact Hfresh]].
        rewrite (checkAndUpdateExpiry_cases now st1). cbv zeta.
        rewrite Hsame.
        destruct (Z.ltb_spec rateLimit.attemptResetMs (now - lastAttempt st));
          [lia |].
        rewrite andb_false_r.
        destruct (lockedUntil st1) as [u |] eqn:Hu; [| reflexivity].
        destruct (Z.eqb_spec u 0) as [Hz | Hnz]; [reflexivity |].
        cbn [negb andb]. specialize (Hrun u eq_refl Hnz).
        destruct (Z.leb_spec u now); [lia | reflexivity]. }
      destruct (lockedUntil st) as [u |] eqn:Hu.
      * destruct (Z.eqb_spec u 0) as [Hz | Hnz]; cbn [negb andb].
        -- apply Hgoal; [reflexivity |]. intros u' Hu' Hnz'.
           rewrite Hu in Hu'. apply some_eq in Hu'. congruence.
        -- destruct (Z.leb_spec u now) as [Hle | Hgt].
           ++ apply Hgoal; [reflexivity | discriminate].
           ++ apply Hgoal; [reflexivity |]. intros u' Hu' _.
              rewrite Hu in Hu'. apply some_eq in Hu'. lia.
      * apply Hgoal; [reflexivity |]. rewrite Hu. discriminate.
Qed.

Lemma ceilDiv_bounds (x : Z) :
  1000 * (ceilDiv x 1000 - 1) < x <= 1000 * ceilDiv x 1000.
Proof.
  unfold ceilDiv.
  pose proof (Z.div_mod (- x) 1000 ltac:(lia)) as Hdm.
  pose proof (Z.mod_pos_bound (- x) 1000 ltac:(lia)) as Hm.
  lia.
Qed.

(** X3: [isLocked] reports a lock exactly when [lockedUntil] is a non-zero
    time after [now], and the seconds it reports are the remaining
    milliseconds rounded up: at least 1, and less than one second above the
    time really left. *)
Theorem isLocked_reports_remaining_time :
  forall (now : Z) (st : LockoutState),
    match LockoutManager.isLocked now st with
    | Some seconds =>
        exists u : Z,
          lockedUntil st = Some u /\ u <> 0 /\ now < u /\
          1 <= seconds /\
          1000 * (seconds - 1) < u - now <= 1000 * seconds
    | None =>
        forall u : Z, lockedUntil st = Some u -> u = 0 \/ u <= now
    end.
Proof.
  intros now st. unfold LockoutManager.isLocked, truthyNum.
  destruct (lockedUntil st) as [u |]; [| discriminate].
  destruct (Z.eqb_spec u 0) as [Hz | Hnz]; cbn [negb andb].
  - intros u' Hu'. apply some_eq in Hu'. left. congruence.
  - destruct (Z.ltb_spec now u) as [Hlt | Hge].
    + exists u. pose proof (ceilDiv_bounds (u - now)) as Hb.
      repeat split; try assumption; lia.
    + intros u' Hu'. apply some_eq in Hu'. right. lia.
Qed.

(** X4: the state [loadFromPinData] produces at its clock reading is left
    as it is by [checkAndUpdateExpiry] at any earlier-or-equal reading, as
    in [verifyPin], which reads its clock before it loads the record. *)
Theorem checkAndUpdateExpiry_after_loadFromPinData :
  forall (now nowLoad : Z) (lockout : option json),
    now <= nowLoad ->
    LockoutManager.checkAndUpdateExpiry now
      (LockoutManager.loadFromPinData nowLoad lockout)
    = LockoutManager.loadFromPinData nowLoad lockout.
Proof.
  intros now nowLoad lockout Hnow.
  unfold LockoutManager.loadFromPinData.
  destruct lockout as [l |]; [| apply checkAndUpdateExpiry_default].
  destruct (negb (truthy (Some l))
            || negb (LockoutManager.isValidLockoutState l));
    [apply checkAndUpdateExpiry_default |].
  set (st := LockoutManager.ofJson l).
  unfold truthyOptNum, truthyNum.
  destruct (lockedUntil st) as [u |] eqn:Hu.
  - destruct (Z.eqb_spec u 0) as [Hz | Hnz]; cbn [negb andb].
    + destruct (Z.eqb_spec (lastAttempt st) 0) as [Hla | Hla]; cbn [negb andb].
      * rewrite (checkAndUpdateExpiry_cases now st). cbv zeta.
        rewrite Hu, Hla. subst u. reflexivity.
      * destruct (Z.ltb_spec rateLimit.attemptResetMs (nowLoad - lastAttempt st))
          as [Hstale | Hfresh]; [apply checkAndUpdateExpiry_default |].
        rewrite (checkAndUpdateExpiry_cases now st). cbv zeta.
        rewrite Hu. subst u. cbn [Z.eqb negb andb].
        destruct (Z.ltb_spec rateLimit.attemptResetMs (now - lastAttempt st));
          [lia |].
        rewrite andb_false_r. reflexivity.
    + destruct (Z.leb_spec u nowLoad) as [Hexp | Hrun].
      * reflexivity.
      * assert (Hrun' : (u <=? now) = false) by (apply Z.leb_gt; lia).
        destruct (Z.eqb_spec (lastAttempt st) 0) as [Hla | Hla];
          cbn [negb andb].
        -- rewrite (checkAndUpdateExpiry_cases now st). cbv zeta.
           rewrite Hu, Hla, Hrun'. rewrite andb_false_r. reflexivity.
        -- destruct (Z.ltb_spec rateLimit.attemptResetMs
                       (nowLoad - lastAttempt st))
             as [Hstale | Hfresh]; [apply checkAndUpdateExpiry_default |].
           rewrite (checkAndUpdateExpiry_cases now st). cbv zeta.
           rewrite Hu, Hrun'.
           destruct (Z.ltb_spec rateLimit.attemptResetMs
                       (now - lastAttempt st)); [lia |].
           rewrite !andb_false_r. reflexivity.
  - cbn [andb].
    destruct (Z.eqb_spec (lastAttempt st) 0) as [Hla | Hla]; cbn [negb andb].
    + rewrite (checkAndUpdateExpiry_cases now st). cbv zeta.
      rewrite Hu, Hla. reflexivity.
    + destruct (Z.ltb_spec rateLimit.attemptResetMs (nowLoad - lastAttempt st))
        as [Hstale | Hfresh]; [apply checkAndUpdateExpiry_default |].
      rewrite (checkAndUpdateExpiry_cases now st). cbv zeta.
      rewrite Hu.
      destruct (Z.ltb_spec rateLimit.attemptResetMs (now - lastAttempt st));
        [lia |].
      rewrite andb_false_r. reflexivity.
Qed.

Lemma checkAndUpdateExpiry_after_loadFromPinData_witness :
  let now := Sample.t0 + 5000 in
  let nowLoad := Sample.t0 + 5001 in
  let lockout := Some (LockoutManager.toJson Scenario.firstLockout) in
  now <= nowLoad /\
  LockoutManager.loadFromPinData nowLoad lockout = Scenario.firstLockout /\
  LockoutManager.checkAndUpdateExpiry now
    (LockoutManager.loadFromPinData nowLoad lockout)
  = LockoutManager.loadFromPinData nowLoad lockout.
Proof.
  intros now nowLoad lockout.
  assert (Hnow : now <= nowLoad) by (vm_compute; discriminate).
  split; [exact Hnow | split; [reflexivity |]].
  exact (checkAndUpdateExpiry_after_loadFromPinData now nowLoad lockout Hnow).
Defined.

(* ========================================================================= *)
(** ** Further facts about verification                                       *)
(* ========================================================================= *)

Section VerifyPinBranches.
Context {P : Platform}.

(** The branch taken on a mismatch. *)
Lemma handleFailedVerification_spec (pinData : json) (now : Z)
                                    (s : PinServiceState) :
  let failure := LockoutManager.recordFailure now (lockoutManager s) in
  PinService.handleFailedVerification pinData now s
  = ({| success := false;
        locked := failLocked (fst failure);
        remainingAttempts := failRemainingAttempts (fst failure);
        lockoutSeconds := failLockoutSeconds (fst failure);
        updatedEncryptedData :=
          PinService.okValue
            (PinService.encryptPinData
               (spreadWith pinData "lockout"
                  (LockoutManager.toJson (snd failure)))) |},
     withLockout (snd failure) s).
Proof.
  cbv zeta. unfold PinService.handleFailedVerification.
  destruct (LockoutManager.recordFailure now (lockoutManager s)) as [fr l1].
  reflexivity.
Qed.

End VerifyPinBranches.

Lemma pair_inv {A B : Type} (a c : A) (b d : B) :
  (a, b) = (c, d) -> a = c /\ b = d.
Proof. intros H. injection H as -> ->. split; reflexivity. Qed.

Lemma returned_pair_inv {A B : Type} (a c : A) (b d : B) :
  (Returned a, b) = (Returned c, d) -> a = c /\ b = d.
Proof. intros H. injection H as -> ->. split; reflexivity. Qed.

Section VerifyPinOutcomes.
Context {P : Platform}.

(** Every call of [verifyPin] takes one of six ways. *)
Lemma verifyPin_cases (now nowLoad : Z) (pin record : string)
                      (s : PinServiceState) :
  (PinService.validatePinFormat pin = false /\
   PinService.verifyPin now nowLoad pin record s
   = (Returned {| success := false; locked := false; remainingAttempts := 5;
                  lockoutSeconds := None; updatedEncryptedData := None |},
      s)) \/
  (PinService.validatePinFormat pin = true /\
   isOk (PinService.decryptPinData record) = false /\
   PinService.verifyPin now nowLoad pin record s
   = (Returned {| success := false; locked := true; remainingAttempts := 0;
                  lockoutSeconds := Some 3600; updatedEncryptedData := None |},
      withLockout {| count := 5; lastAttempt := now;
                     lockedUntil := Some (now + 3600000);
                     lockoutCount := 12 |} s)) \/
  (exists pinData : json,
      PinService.validatePinFormat pin = true /\
      PinService.decryptPinData record = Ok pinData /\
      let loaded := loadedLockout now nowLoad pinData in
      let s2 := withLockout loaded s in
      match LockoutManager.isLocked now loaded with
      | Some seconds =>
          PinService.verifyPin now nowLoad pin record s
          = (Returned {| success := false; locked := true;
                         remainingAttempts := 0;
                         lockoutSeconds := Some seconds;
                         updatedEncryptedData := None |},
             s2)
      | None =>
          match timingSafeEqual
                  (fromBase64 (PinService.pinHash pinData))
                  (PinService.hashPin pin
                     (fromBase64 (PinService.pinSalt pinData))) with
          | None =>
              PinService.verifyPin now nowLoad pin record s
              = (Threw "RangeError", s2)
          | Some true =>
              PinService.verifyPin now nowLoad pin record s
              = PinService.handleSuccessfulVerification pin pinData s2
          | Some false =>
              PinService.verifyPin now nowLoad pin record s
              = (Returned
                   (fst (PinService.handleFailedVerification pinData now s2)),
                 snd (PinService.handleFailedVerification pinData now s2))
          end
      end).
Proof.
  unfold PinService.verifyPin.
  destruct (PinService.validatePinFormat pin); cbn [negb].
  2: { left. split; reflexivity. }
  right.
  destruct (PinService.decryptPinData record) as [pinData | e].
  2: { left. repeat split. }
  right. exists pinData. split; [reflexivity | split; [reflexivity |]].
  cbv zeta. unfold loadedLockout.
  destruct (LockoutManager.isLocked now _) as [seconds |]; [reflexivity |].
  unfold PinService.performVerification.
  destruct (timingSafeEqual _ _) as [[|] |].
  - reflexivity.
  - destruct (PinService.handleFailedVerification pinData now _); reflexivity.
  - reflexivity.
Qed.

(** X5: [verifyPin] reports success only for a well-formed PIN, on a
    readable record that is not locked once loaded, and only when the hash
    derived from the entered PIN and the record's salt equals the stored
    hash byte for byte.  It then returns [locked: false] with 5 remaining
    attempts, sets the verified flag and leaves the lockout manager in the
    zero state. *)
Theorem verifyPin_success_sound :
  forall (now nowLoad : Z) (pin record : string) (s s' : PinServiceState)
         (r : VerifyPinResult),
    PinService.verifyPin now nowLoad pin record s = (Returned r, s') ->
    success r = true ->
    sixDecimalDigits pin /\
    (exists pinData : json,
        PinService.decryptPinData record = Ok pinData /\
        LockoutManager.isLocked now (loadedLockout now nowLoad pinData) = None /\
        fromBase64 (PinService.pinHash pinData)
        = PinService.hashPin pin (fromBase64 (PinService.pinSalt pinData))) /\
    locked r = false /\
    remainingAttempts r = 5 /\
    lockoutSeconds r = None /\
    isPinVerified s' = true /\
    lockoutManager s' = LockoutManager.createDefaultState.
Proof.
  intros now nowLoad pin record s s' r Hcall Hok.
  destruct (verifyPin_cases now nowLoad pin record s)
    as [[_ H] | [(_ & _ & H) | (pinData & Hpin & Hdec & H)]].
  - rewrite H in Hcall. apply returned_pair_inv in Hcall as [<- _]. discriminate.
  - rewrite H in Hcall. apply returned_pair_inv in Hcall as [<- _]. discriminate.
  - cbv zeta in H.
    destruct (LockoutManager.isLocked now (loadedLockout now nowLoad pinData))
      as [seconds |] eqn:Hfree.
    { rewrite H in Hcall. apply returned_pair_inv in Hcall as [<- _]. discriminate. }
    destruct (timingSafeEqual _ _) as [[|] |] eqn:Heq.
    + rewrite H in Hcall.
      apply handleSuccessfulVerification_result in Hcall
        as (Hr & Hv & Hl & _).
      split; [apply validatePinFormat_spec; exact Hpin |].
      split.
      { exists pinData. split; [exact Hdec | split; [exact Hfree |]].
        unfold timingSafeEqual in Heq.
        destruct (Nat.eqb _ _); [| discriminate].
        apply some_eq in Heq. apply bufferEqb_eq. exact Heq. }
      rewrite Hr. cbn [locked remainingAttempts lockoutSeconds].
      repeat split; assumption.
    + rewrite H, handleFailedVerification_spec in Hcall.
      cbv zeta in Hcall. cbn [fst snd] in Hcall.
      apply returned_pair_inv in Hcall as [<- _]. discriminate.
    + rewrite H in Hcall. discriminate.
Qed.

(** X6: a call of [verifyPin] that does not report success never changes
    the cached session key, whether it returns or throws.  When it returns
    (a wrong PIN, a locked or unreadable record, a malformed PIN) the
    verified flag is as it was too, so that a failed attempt does not end a
    session that was open; and so it is when the call throws on a record
    whose [encryptionSalt] [Buffer.from] does not refuse. *)
Theorem verifyPin_failure_keeps_session :
  forall (now nowLoad : Z) (pin record : string) (s s' : PinServiceState)
         (outcome : Completion VerifyPinResult),
    PinService.verifyPin now nowLoad pin record s = (outcome, s') ->
    (forall r : VerifyPinResult, outcome = Returned r -> success r = false) ->
    derivedEncryptionKey s' = derivedEncryptionKey s /\
    ((exists r : VerifyPinResult, outcome = Returned r) \/
     (forall pinData : json,
         PinService.decryptPinData record = Ok pinData ->
         encryptionSaltError pinData = None) ->
     isPinVerified s' = isPinVerified s).
Proof.
  intros now nowLoad pin record s s' outcome Hcall Hfail.
  destruct (verifyPin_cases now nowLoad pin record s)
    as [[_ H] | [(_ & _ & H) | (pinData & Hpin & Hdec & H)]].
  - rewrite H in Hcall. apply pair_inv in Hcall as [_ <-].
    split; [reflexivity | intros _; reflexivity].
  - rewrite H in Hcall. apply pair_inv in Hcall as [_ <-].
    split; [reflexivity | intros _; reflexivity].
  - cbv zeta in H.
    destruct (LockoutManager.isLocked now (loadedLockout now nowLoad pinData))
      as [seconds |].
    { rewrite H in Hcall. apply pair_inv in Hcall as [_ <-].
      split; [reflexivity | intros _; reflexivity]. }
    destruct (timingSafeEqual _ _) as [[|] |].
    + rewrite H in Hcall. destruct outcome as [r | exn].
      * apply handleSuccessfulVerification_result in Hcall as (Hr & _).
        specialize (Hfail r eq_refl). rewrite Hr in Hfail. discriminate.
      * apply handleSuccessfulVerification_threw in Hcall as (Herr & ->).
        split; [reflexivity |].
        intros [[r Hr] | Hsalt]; [discriminate |].
        rewrite (Hsalt pinData Hdec) in Herr. discriminate.
    + rewrite H, handleFailedVerification_spec in Hcall.
      cbv zeta in Hcall. cbn [fst snd] in Hcall.
      apply pair_inv in Hcall as [_ <-].
      split; [reflexivity | intros _; reflexivity].
    + rewrite H in Hcall. apply pair_inv in Hcall as [_ <-].
      split; [reflexivity | intros _; reflexivity].
Qed.

(** X7: in every result [verifyPin] returns, [locked] is true exactly when
    [lockoutSeconds] is present; a locked result never reports success and
    has no remaining attempt; and an updated record is only handed out by a
    call that compared the PIN (well-formed PIN, readable record, no lock in
    force). *)
Theorem verifyPin_result_shape :
  forall (now nowLoad : Z) (pin record : string) (s s' : PinServiceState)
         (r : VerifyPinResult),
    PinService.verifyPin now nowLoad pin record s = (Returned r, s') ->
    (locked r = true <-> lockoutSeconds r <> None) /\
    (locked r = true -> success r = false /\ remainingAttempts r = 0) /\
    (updatedEncryptedData r <> None ->
     sixDecimalDigits pin /\
     exists pinData : json,
       PinService.decryptPinData record = Ok pinData /\
       LockoutManager.isLocked now (loadedLockout now nowLoad pinData) = None).
Proof.
  intros now nowLoad pin record s s' r Hcall.
  destruct (verifyPin_cases now nowLoad pin record s)
    as [[_ H] | [(_ & _ & H) | (pinData & Hpin & Hdec & H)]].
  - rewrite H in Hcall. apply returned_pair_inv in Hcall as [<- _].
    cbn [locked lockoutSeconds success remainingAttempts updatedEncryptedData].
    split; [split; [discriminate | intros Hn; contradiction] |].
    split; [discriminate | intros Hn; contradiction].
  - rewrite H in Hcall. apply returned_pair_inv in Hcall as [<- _].
    cbn [locked lockoutSeconds success remainingAttempts updatedEncryptedData].
    split; [split; [discriminate | reflexivity] |].
    split; [intros _; split; reflexivity | intros Hn; contradiction].
  - cbv zeta in H.
    destruct (LockoutManager.isLocked now (loadedLockout now nowLoad pinData))
      as [seconds |] eqn:Hfree.
    { rewrite H in Hcall. apply returned_pair_inv in Hcall as [<- _].
      cbn [locked lockoutSeconds success remainingAttempts
           updatedEncryptedData].
      split; [split; [discriminate | reflexivity] |].
      split; [intros _; split; reflexivity | intros Hn; contradiction]. }
    assert (Hcompared :
      sixDecimalDigits pin /\
      exists pinData0 : json,
        PinService.decryptPinData record = Ok pinData0 /\
        LockoutManager.isLocked now (loadedLockout now nowLoad pinData0)
          = None).
    { split; [apply validatePinFormat_spec; exact Hpin |].
      exists pinData. split; assumption. }
    destruct (timingSafeEqual _ _) as [[|] |].
    + rewrite H in Hcall.
      apply handleSuccessfulVerification_result in Hcall as (Hr & _).
      rewrite Hr.
      cbn [locked lockoutSeconds success remainingAttempts].
      split; [split; [discriminate | intros Hn; contradiction] |].
      split; [discriminate | intros _; exact Hcompared].
    + rewrite H, handleFailedVerification_spec in Hcall.
      cbv zeta in Hcall. cbn [fst snd] in Hcall.
      apply returned_pair_inv in Hcall as [<- _].
      cbn [locked lockoutSeconds success remainingAttempts
           updatedEncryptedData lockoutManager withLockout].
      set (st := loadedLockout now nowLoad pinData).
      destruct (Z.lt_ge_cases (count st + 1) rateLimit.maxAttempts)
        as [Hlt | Hge].
      * rewrite (recordFailure_below_threshold now st Hlt).
        cbn [fst snd failLocked failRemainingAttempts failLockoutSeconds].
        split; [split; [discriminate | intros Hn; contradiction] |].
        split; [discriminate | intros _; exact Hcompared].
      * rewrite (recordFailure_at_threshold now st Hge).
        cbn [fst snd failLocked failRemainingAttempts failLockoutSeconds].
        split; [split; [discriminate | reflexivity] |].
        split; [intros _; split; reflexivity | intros _; exact Hcompared].
    + rewrite H in Hcall. discriminate.
Qed.

End VerifyPinOutcomes.

Lemma lookup_assign_same (k : string) (v : json) (fs : list (string * json)) :
  lookup k (assign k v fs) = Some v.
Proof.
  induction fs as [| [k0 v0] rest IH]; cbn [assign lookup].
  - rewrite String.eqb_refl. reflexivity.
  - destruct (String.eqb k k0) eqn:E; cbn [lookup]; rewrite E.
    + reflexivity.
    + exact IH.
Qed.

Lemma lookup_assign_other (k k' : string) (v : json)
                          (fs : list (string * json)) :
  k' <> k -> lookup k' (assign k v fs) = lookup k' fs.
Proof.
  intros Hne. apply String.eqb_neq in Hne.
  induction fs as [| [k0 v0] rest IH]; cbn [assign lookup].
  - rewrite Hne. reflexivity.
  - destruct (String.eqb k k0) eqn:E; cbn [lookup].
    + apply String.eqb_eq in E. subst k0. rewrite Hne. reflexivity.
    + rewrite IH. reflexivity.
Qed.

Lemma isValidPinData_object (pinData : json) :
  PinService.isValidPinData pinData = true ->
  exists fs : list (string * json), pinData = JObj fs.
Proof.
  destruct pinData; cbn; try discriminate.
  intros _. eexists. reflexivity.
Qed.

Lemma timingSafeEqual_None (a b : Buffer) :
  timingSafeEqual a b = None <-> List.length a <> List.length b.
Proof.
  unfold timingSafeEqual.
  destruct (Nat.eqb_spec (List.length a) (List.length b)) as [Heq | Hne].
  - split; [discriminate | contradiction].
  - split; [intros _; exact Hne | reflexivity].
Qed.

Section ReadableRecords.
Context {P : Platform}.

Lemma decryptPinData_Ok (record : string) (pinData : json) :
  PinService.decryptPinData record = Ok pinData ->
  truthyStr record = true /\
  isEncryptionAvailable = true /\
  PinService.isValidPinData pinData = true.
Proof.
  unfold PinService.decryptPinData.
  destruct (truthyStr record); cbn [negb]; [| discriminate].
  destruct isEncryptionAvailable; cbn [negb]; [| discriminate].
  destruct (decryptString (fromBase64 record)) as [text |]; [| discriminate].
  destruct (JSON_parse text) as [data |]; [| discriminate].
  destruct (PinService.isValidPinData data) eqn:Hv; cbn [negb];
    [| discriminate].
  intros H. injection H as <-. repeat split. exact Hv.
Qed.

Lemma okValue_Some (x : PinOperationResult string) (v : string) :
  PinService.okValue x = Some v -> x = Ok v.
Proof. destruct x; cbn; [intros H; injection H as ->; reflexivity | discriminate]. Qed.

(** X8: the updated record [verifyPin] hands out is the encryption of the
    payload it read with one property replaced: [lockout] is the state the
    lockout manager holds after the call.  Every other property ([hash],
    [salt], [encryptionSalt], anything else) is carried over unchanged, and
    the payload is still structurally valid. *)
Theorem verifyPin_updated_record :
  forall (now nowLoad : Z) (pin record updated : string)
         (s s' : PinServiceState) (r : VerifyPinResult),
    PinService.verifyPin now nowLoad pin record s = (Returned r, s') ->
    updatedEncryptedData r = Some updated ->
    exists pinData : json,
      PinService.decryptPinData record = Ok pinData /\
      let pinData' :=
        spreadWith pinData "lockout"
          (LockoutManager.toJson (lockoutManager s')) in
      PinService.encryptPinData pinData' = Ok updated /\
      PinService.pinLockout pinData'
        = Some (LockoutManager.toJson (lockoutManager s')) /\
      (forall k : string, k <> "lockout" -> get pinData' k = get pinData k) /\
      PinService.isValidPinData pinData' = true.
Proof.
  intros now nowLoad pin record updated s s' r Hcall Hup.
  assert (Hspread :
    forall (pinData : json) (l : LockoutState),
      PinService.isValidPinData pinData = true ->
      let pinData' := spreadWith pinData "lockout" (LockoutManager.toJson l) in
      PinService.pinLockout pinData' = Some (LockoutManager.toJson l) /\
      (forall k : string, k <> "lockout" -> get pinData' k = get pinData k) /\
      PinService.isValidPinData pinData' = true).
  { intros pinData l Hv pinData'. subst pinData'.
    destruct (isValidPinData_object pinData Hv) as [fs ->].
    cbn [spreadWith].
    assert (Hother : forall k : string, k <> "lockout" ->
              get (JObj (assign "lockout" (LockoutManager.toJson l) fs)) k
              = get (JObj fs) k).
    { intros k Hk. cbn [get]. apply lookup_assign_other. exact Hk. }
    split; [apply lookup_assign_same | split; [exact Hother |]].
    unfold PinService.isValidPinData in *. cbn [isNonNullObject] in *.
    rewrite !Hother by discriminate. exact Hv. }
  destruct (verifyPin_cases now nowLoad pin record s)
    as [[_ H] | [(_ & _ & H) | (pinData & Hpin & Hdec & H)]].
  - rewrite H in Hcall. apply returned_pair_inv in Hcall as [<- _].
    discriminate.
  - rewrite H in Hcall. apply returned_pair_inv in Hcall as [<- _].
    discriminate.
  - destruct (decryptPinData_Ok record pinData Hdec) as (_ & _ & Hv).
    exists pinData. split; [exact Hdec |].
    cbv zeta in H.
    destruct (LockoutManager.isLocked now (loadedLockout now nowLoad pinData))
      as [seconds |].
    { rewrite H in Hcall. apply returned_pair_inv in Hcall as [<- _].
      discriminate. }
    destruct (timingSafeEqual _ _) as [[|] |].
    + rewrite H in Hcall.
      apply handleSuccessfulVerification_result in Hcall as (Hr & _ & Hl & _).
      rewrite Hr in Hup. cbn [updatedEncryptedData] in Hup.
      rewrite Hl. split; [apply okValue_Some; exact Hup |].
      apply Hspread. exact Hv.
    + rewrite H, handleFailedVerification_spec in Hcall.
      cbv zeta in Hcall. cbn [fst snd] in Hcall.
      apply returned_pair_inv in Hcall as [<- <-].
      cbn [updatedEncryptedData lockoutManager withLockout] in *.
      split; [apply okValue_Some; exact Hup |].
      apply Hspread. exact Hv.
    + rewrite H in Hcall. discriminate.
Qed.


(** X10: on a readable record whose lockout snapshot holds a number,
    [null] or nothing as [lockedUntil], [verifyPin] lets an exception escape
    in exactly two situations, in both of which the PIN is well formed and
    the record not locked once loaded.  Either the stored hash does not have
    the byte length of the hash derived from the entered PIN: the
    [RangeError] of [timingSafeEqual] leaves the service as the loading of
    the record left it.  Or the hashes are equal and [Buffer.from] refuses
    the record's [encryptionSalt]: its exception escapes after the lockout
    was reset and the verified flag set. *)
Theorem verifyPin_throws_iff :
  forall (now nowLoad : Z) (pin record : string) (pinData : json)
         (s : PinServiceState) (exn : string),
    PinService.decryptPinData record = Ok pinData ->
    LockoutManager.lockedUntilTyped (PinService.pinLockout pinData) = true ->
    let out := PinService.verifyPin now nowLoad pin record s in
    let loaded := loadedLockout now nowLoad pinData in
    let stored := fromBase64 (PinService.pinHash pinData) in
    let entered :=
      PinService.hashPin pin (fromBase64 (PinService.pinSalt pinData)) in
    (fst out = Threw exn <->
     sixDecimalDigits pin /\
     LockoutManager.isLocked now loaded = None /\
     ((List.length stored <> List.length entered /\ exn = "RangeError") \/
      (stored = entered /\ encryptionSaltError pinData = Some exn))) /\
    (fst out = Threw exn ->
     List.length stored <> List.length entered ->
     snd out = withLockout loaded s) /\
    (fst out = Threw exn ->
     stored = entered ->
     snd out
     = withVerified true
         (withLockout LockoutManager.createDefaultState s)).
Proof.
  intros now nowLoad pin record pinData s exn Hdec _ out loaded stored entered.
  subst out loaded stored entered.
  destruct (verifyPin_cases now nowLoad pin record s)
    as [[Hf H] | [(Hpin & Hbad & H) | (pinData2 & Hpin & Hdec2 & H)]].
  - rewrite H. cbn [fst snd].
    split; [| split; intros He; discriminate].
    split; [intros He; discriminate |].
    intros [Hsix _]. apply validatePinFormat_spec in Hsix. congruence.
  - rewrite Hdec in Hbad. discriminate.
  - rewrite Hdec in Hdec2.
    assert (Hpd : pinData2 = pinData) by congruence. subst pinData2.
    cbv zeta in H.
    assert (Hsix : sixDecimalDigits pin)
      by (apply validatePinFormat_spec; exact Hpin).
    destruct (LockoutManager.isLocked now (loadedLockout now nowLoad pinData))
      as [seconds |] eqn:Hfree.
    { rewrite H. cbn [fst snd].
      split; [| split; intros He; discriminate].
      split; [intros He; discriminate |].
      intros (_ & Hnone & _). discriminate. }
    destruct (timingSafeEqual _ _) as [[|] |] eqn:Heq.
    + assert (Hsame : fromBase64 (PinService.pinHash pinData)
                      = PinService.hashPin pin
                          (fromBase64 (PinService.pinSalt pinData))).
      { unfold timingSafeEqual in Heq.
        destruct (Nat.eqb _ _); [| discriminate].
        apply some_eq in Heq. apply bufferEqb_eq. exact Heq. }
      rewrite H.
      destruct (PinService.handleSuccessfulVerification pin pinData _)
        as [c s'] eqn:Hbranch.
      cbn [fst snd]. split; [split |].
      * intros ->.
        apply handleSuccessfulVerification_threw in Hbranch as (Herr & _).
        split; [exact Hsix | split; [reflexivity |]].
        right. split; assumption.
      * intros (_ & _ & [[Hlen _] | [_ Herr]]).
        -- rewrite Hsame in Hlen. contradiction.
        -- destruct c as [r | exn0].
           ++ apply handleSuccessfulVerification_result in Hbranch
                as (_ & _ & _ & Hnone).
              rewrite Hnone in Herr. discriminate.
           ++ apply handleSuccessfulVerification_threw in Hbranch
                as (Herr0 & _).
              rewrite Herr0 in Herr. congruence.
      * split.
        -- intros _ Hlen. rewrite Hsame in Hlen. contradiction.
        -- intros -> _.
           apply handleSuccessfulVerification_threw in Hbranch as (_ & ->).
           reflexivity.
    + assert (Hdiff : fromBase64 (PinService.pinHash pinData)
                      <> PinService.hashPin pin
                           (fromBase64 (PinService.pinSalt pinData))).
      { intros Hsame. rewrite Hsame, timingSafeEqual_refl in Heq.
        discriminate. }
      assert (Hlen : List.length (fromBase64 (PinService.pinHash pinData))
                     = List.length
                         (PinService.hashPin pin
                            (fromBase64 (PinService.pinSalt pinData)))).
      { destruct (Nat.eq_dec
                    (List.length (fromBase64 (PinService.pinHash pinData)))
                    (List.length
                       (PinService.hashPin pin
                          (fromBase64 (PinService.pinSalt pinData)))))
          as [Hl | Hl]; [exact Hl |].
        apply timingSafeEqual_None in Hl. congruence. }
      rewrite H. cbn [fst snd].
      split; [| split; intros He; discriminate].
      split; [intros He; discriminate |].
      intros (_ & _ & [[Hl _] | [Hsame _]]); contradiction.
    + pose proof (proj1 (timingSafeEqual_None _ _) Heq) as Hlen.
      rewrite H. cbn [fst snd]. split; [split |].
      * intros He. assert (Hexn : exn = "RangeError") by congruence.
        split; [exact Hsix | split; [reflexivity |]].
        left. split; assumption.
      * intros (_ & _ & [[_ ->] | [Hsame _]]); [reflexivity |].
        rewrite Hsame in Hlen. contradiction.
      * split; [intros _ _; reflexivity |].
        intros _ Hsame. rewrite Hsame in Hlen. contradiction.
Qed.

End ReadableRecords.

Section StatusAndVerification.
Context {P : Platform}.

(** [getLockoutStatus] on a readable record looks at the lockout state
    [verifyPin] works on at the same clock readings. *)
Lemma getLockoutStatus_readable (now nowLoad : Z) (record : string)
                                (pinData : json) (s : PinServiceState) :
  PinService.decryptPinData record = Ok pinData ->
  PinService.getLockoutStatus nowLoad now now (Some record) s
  = (LockoutManager.getStatus now (loadedLockout now nowLoad pinData),
     withLockout (loadedLockout now nowLoad pinData) s).
Proof.
  intros Hdec. unfold PinService.getLockoutStatus.
  destruct (decryptPinData_Ok record pinData Hdec) as (-> & _ & _).
  rewrite Hdec. reflexivity.
Qed.

(** X11: when [getLockoutStatus(record)] reports a readable record as
    locked, [verifyPin] on that record at the same clock readings returns
    the locked result with the same number of seconds for every well-formed
    PIN, right or wrong, without an updated record, and both calls leave the
    same lockout state in memory. *)
Theorem getLockoutStatus_locked_predicts_verifyPin :
  forall (now nowLoad : Z) (pin record : string) (pinData : json)
         (s s0 : PinServiceState),
    sixDecimalDigits pin ->
    PinService.decryptPinData record = Ok pinData ->
    let queried := PinService.getLockoutStatus nowLoad now now (Some record) s0 in
    statusLocked (fst queried) = true ->
    PinService.verifyPin now nowLoad pin record s
    = (Returned {| success := false;
                   locked := true;
                   remainingAttempts := statusRemainingAttempts (fst queried);
                   lockoutSeconds := statusLockoutSeconds (fst queried);
                   updatedEncryptedData := None |},
       withLockout (lockoutManager (snd queried)) s).
Proof.
  intros now nowLoad pin record pinData s s0 Hpin Hdec queried Hlocked.
  subst queried.
  rewrite (getLockoutStatus_readable now nowLoad record pinData s0 Hdec) in *.
  cbn [fst snd lockoutManager withLockout] in *.
  apply validatePinFormat_spec in Hpin.
  destruct (verifyPin_cases now nowLoad pin record s)
    as [[Hf _] | [(_ & Hbad & _) | (pinData2 & _ & Hdec2 & H)]];
    [congruence | rewrite Hdec in Hbad; discriminate |].
  rewrite Hdec in Hdec2. injection Hdec2 as <-. cbv zeta in H.
  unfold LockoutManager.getStatus in *.
  destruct (LockoutManager.isLocked now (loadedLockout now nowLoad pinData))
    as [seconds |]; [| discriminate].
  exact H.
Qed.

(** X12: when [getLockoutStatus(record)] reports a readable record as not
    locked with [k] remaining attempts, a well-formed PIN whose hash does
    not match consumes exactly one of them: [verifyPin] returns [k - 1]
    remaining attempts and [locked: false] while [k - 1] is positive, and
    [locked: true] with no remaining attempt otherwise. *)
Theorem verifyPin_mismatch_consumes_one_attempt :
  forall (now nowLoad : Z) (pin record : string) (pinData : json)
         (s s0 : PinServiceState),
    sixDecimalDigits pin ->
    PinService.decryptPinData record = Ok pinData ->
    let status :=
      fst (PinService.getLockoutStatus nowLoad now now (Some record) s0) in
    statusLocked status = false ->
    timingSafeEqual
      (fromBase64 (PinService.pinHash pinData))
      (PinService.hashPin pin (fromBase64 (PinService.pinSalt pinData)))
      = Some false ->
    exists (r : VerifyPinResult) (s' : PinServiceState),
      PinService.verifyPin now nowLoad pin record s = (Returned r, s') /\
      success r = false /\
      locked r = (statusRemainingAttempts status <=? 1) /\
      remainingAttempts r = Z.max 0 (statusRemainingAttempts status - 1) /\
      count (lockoutManager s')
        = rateLimit.maxAttempts - statusRemainingAttempts status + 1.
Proof.
  intros now nowLoad pin record pinData s s0 Hpin Hdec status Hfree Hneq.
  subst status.
  rewrite (getLockoutStatus_readable now nowLoad record pinData s0 Hdec) in *.
  cbn [fst] in *.
  apply validatePinFormat_spec in Hpin.
  unfold LockoutManager.getStatus in *.
  destruct (LockoutManager.isLocked now (loadedLockout now nowLoad pinData))
    as [seconds |] eqn:Hlock; [discriminate |].
  cbn [statusRemainingAttempts].
  pose proof (verifyPin_mismatch now nowLoad pin record pinData s Hpin Hdec)
    as Hstep.
  cbv zeta in Hstep. fold (loadedLockout now nowLoad pinData) in Hstep.
  specialize (Hstep Hlock Hneq). rewrite Hstep.
  set (st := loadedLockout now nowLoad pinData).
  eexists. eexists. split; [reflexivity |].
  cbn [success locked remainingAttempts lockoutManager withLockout].
  destruct (Z.lt_ge_cases (count st + 1) rateLimit.maxAttempts) as [Hlt | Hge].
  - rewrite (recordFailure_below_threshold now st Hlt).
    cbn [fst snd failLocked failRemainingAttempts count].
    unfold_config.
    destruct (Z.leb_spec (5 - count st) 1); [lia |].
    repeat split; lia.
  - rewrite (recordFailure_at_threshold now st Hge).
    cbn [fst snd failLocked failRemainingAttempts count].
    unfold_config.
    destruct (Z.leb_spec (5 - count st) 1); [| lia].
    repeat split; lia.
Qed.

(** X13: for a non-empty record that cannot be read, [getLockoutStatus]
    reports a lock of 3600 seconds with no remaining attempt, and, unlike
    [verifyPin], applies nothing: the service state, lockout manager
    included, is unchanged. *)
Theorem getLockoutStatus_unreadable_record :
  forall (nowLoad nowExpiry nowStatus : Z) (record : string)
         (s : PinServiceState),
    record <> EmptyString ->
    isOk (PinService.decryptPinData record) = false ->
    PinService.getLockoutStatus nowLoad nowExpiry nowStatus (Some record) s
    = ({| statusLocked := true;
          statusLockoutSeconds := Some 3600;
          statusRemainingAttempts := 0 |},
       s).
Proof.
  intros nowLoad nowExpiry nowStatus record s Hne Hbad.
  unfold PinService.getLockoutStatus.
  destruct record as [| c rest]; [contradiction |]. cbn [truthyStr].
  destruct (PinService.decryptPinData (String c rest)); [discriminate |].
  reflexivity.
Qed.

(** X14: after a successful [verifyPin], the session operations and the
    stateless operations called with the same PIN and with the salt
    [getEncryptionSalt] returns for the record are the same functions: what
    one mode encrypts the other decrypts. *)
Theorem session_and_stateless_modes_agree :
  forall (now nowLoad : Z) (pin record es : string) (s s' : PinServiceState)
         (r : VerifyPinResult),
    PinService.verifyPin now nowLoad pin record s = (Returned r, s') ->
    success r = true ->
    PinService.getEncryptionSalt record = Some (JStr es) ->
    (forall (iv : Buffer) (data : string),
        PinService.encryptWithVerifiedKey iv data s'
        = PinService.encryptWithPin iv data pin es) /\
    (forall blob : string,
        PinService.decryptWithVerifiedKey blob s'
        = PinService.decryptWithPin blob pin es).
Proof.
  intros now nowLoad pin record es s s' r Hcall Hok Hsalt.
  destruct (verifyPin_success_inv now nowLoad pin record s s' r Hcall Hok)
    as (pinData & s2 & Hdec & _ & Hbranch).
  unfold PinService.getEncryptionSalt in Hsalt. rewrite Hdec in Hsalt.
  apply handleSuccessfulVerification_returned in Hbranch.
  destruct (truthy (PinService.pinEncryptionSalt pinData)) eqn:Htruthy;
    [| discriminate].
  rewrite Hsalt in Hbranch, Htruthy. rewrite Htruthy in Hbranch.
  destruct Hbranch as (salt & Hbuf & Hk).
  cbn [PinService.bufferFrom] in Hbuf.
  assert (Hsalt' : fromBase64 es = salt) by congruence.
  rewrite <- Hsalt' in Hk.
  unfold PinService.encryptWithVerifiedKey, PinService.decryptWithVerifiedKey,
    PinService.encryptWithPin, PinService.decryptWithPin.
  rewrite Hk. split; reflexivity.
Qed.

(** X15: [clearVerification] closes the session: afterwards the verified
    flag is off, no key is cached, both session operations return null for
    every input, and the lockout state is what it was.  [initialize] puts
    the service back in the state its constructor builds, whatever state it
    was in. *)
Theorem clearVerification_closes_session :
  forall (s : PinServiceState) (iv : Buffer) (data blob : string),
    let s' := PinService.clearVerification s in
    PinService.isPinCurrentlyVerified s' = false /\
    PinService.hasEncryptionKey s' = false /\
    PinService.encryptWithVerifiedKey iv data s' = None /\
    PinService.decryptWithVerifiedKey blob s' = None /\
    lockoutManager s' = lockoutManager s /\
    PinService.initialize s = PinService.new.
Proof.
  intros s iv data blob s'. subst s'.
  unfold PinService.clearVerification, PinService.initialize,
    PinService.isPinCurrentlyVerified, PinService.hasEncryptionKey,
    PinService.encryptWithVerifiedKey, PinService.decryptWithVerifiedKey,
    PinService.clearDerivedKey, PinService.new.
  destruct s as [v [key |] l]; cbn; repeat split.
Qed.

End StatusAndVerification.

Section RecordsAndCreation.
Context {P : Platform}.

(** X16: what [decryptPinData] makes of a record [encryptPinData] wrote,
    when the platform gives back what it was given (base64 and the secret
    store on the ciphertext, JSON on the payload): the payload itself if it
    is structurally valid; the structure error if it is not, since
    [encryptPinData] does not validate; and the input error if the base64
    text came out empty. *)
Theorem encryptPinData_decryptPinData :
  forall (pinData : json) (record : string) (cipher : Buffer),
    PinService.encryptPinData pinData = Ok record ->
    encryptString (JSON_stringify pinData) = Some cipher ->
    fromBase64 (toBase64 cipher) = cipher ->
    decryptString cipher = Some (JSON_stringify pinData) ->
    JSON_parse (JSON_stringify pinData) = Some pinData ->
    PinService.decryptPinData record
    = if truthyStr record
      then if PinService.isValidPinData pinData
           then Ok pinData
           else Err "Invalid PIN data structure"
      else Err "Invalid encrypted data".
Proof.
  intros pinData record cipher Henc Hseal Hb64 Hopen Hparse.
  unfold PinService.encryptPinData in Henc.
  destruct isEncryptionAvailable eqn:Hav; cbn [negb] in Henc; [| discriminate].
  rewrite Hseal in Henc. injection Henc as <-.
  unfold PinService.decryptPinData.
  destruct (truthyStr (toBase64 cipher)); cbn [negb]; [| reflexivity].
  rewrite Hav, Hb64, Hopen, Hparse. cbn [negb].
  destruct (PinService.isValidPinData pinData); reflexivity.
Qed.

(** X17: [createPinHash] returns null exactly when the secret store is
    unavailable, the PIN is not six decimal digits, or [encryptString]
    throws.  In the first two cases the service state is untouched; with an
    available store and a well-formed PIN the attempts are reset even when
    the encryption then fails.  The verified flag and the cached key are
    never changed. *)
Theorem createPinHash_outcomes :
  forall (salt es : Buffer) (pin : string) (s : PinServiceState),
    let out := PinService.createPinHash salt es pin s in
    (fst out = None <->
     isEncryptionAvailable = false \/
     ~ sixDecimalDigits pin \/
     encryptString
       (JSON_stringify
          (PinService.newPinData (PinService.hashPin pin salt) salt es
             (lockoutManager s))) = None) /\
    (isEncryptionAvailable = false \/ ~ sixDecimalDigits pin -> snd out = s) /\
    (isEncryptionAvailable = true -> sixDecimalDigits pin ->
     snd out = PinService.resetAttempts s) /\
    isPinVerified (snd out) = isPinVerified s /\
    derivedEncryptionKey (snd out) = derivedEncryptionKey s.
Proof.
  intros salt es pin s out. subst out.
  unfold PinService.createPinHash, PinService.createPinHashSafe,
    PinService.encryptPinData, LockoutManager.serialize.
  destruct isEncryptionAvailable; cbn [negb fst snd].
  2: { split; [split; [intros _; left; reflexivity | reflexivity] |].
       split; [reflexivity |]. split; [discriminate | split; reflexivity]. }
  destruct (PinService.validatePinFormat pin) eqn:Hpin; cbn [negb fst snd].
  2: { assert (Hn : ~ sixDecimalDigits pin).
       { intros Hsix. apply validatePinFormat_spec in Hsix. congruence. }
       split; [split; [intros _; right; left; exact Hn | reflexivity] |].
       split; [reflexivity |].
       split; [intros _ Hsix; contradiction | split; reflexivity]. }
  assert (Hsix : sixDecimalDigits pin) by (apply validatePinFormat_spec; exact Hpin).
  destruct (encryptString _) as [cipher |] eqn:Hseal; cbn [fst snd].
  - split.
    { split; [discriminate |].
      intros [Hf | [Hn | Hnone]];
        [discriminate | contradiction | discriminate]. }
    split; [intros [Hf | Hn]; [discriminate | contradiction] |].
    split; [reflexivity | split; reflexivity].
  - split.
    { split; [intros _; right; right; reflexivity | reflexivity]. }
    split; [intros [Hf | Hn]; [discriminate | contradiction] |].
    split; [reflexivity | split; reflexivity].
Qed.

(** X18: once the lock a record carries has run out, the first wrong PIN
    is answered with 4 remaining attempts: the attempt count starts again
    from zero, while [lockoutCount], the memory of earlier lockouts, is
    kept in the updated record. *)
Theorem verifyPin_after_served_lock :
  forall (now nowLoad u : Z) (pin record : string) (pinData lockout : json)
         (s : PinServiceState),
    sixDecimalDigits pin ->
    PinService.decryptPinData record = Ok pinData ->
    PinService.pinLockout pinData = Some lockout ->
    LockoutManager.isValidLockoutState lockout = true ->
    lockedUntil (LockoutManager.ofJson lockout) = Some u ->
    u <> 0 ->
    u <= nowLoad ->
    timingSafeEqual
      (fromBase64 (PinService.pinHash pinData))
      (PinService.hashPin pin (fromBase64 (PinService.pinSalt pinData)))
      = Some false ->
    let after :=
      {| count := 1;
         lastAttempt := now;
         lockedUntil := None;
         lockoutCount := lockoutCount (LockoutManager.ofJson lockout) |} in
    PinService.verifyPin now nowLoad pin record s
    = (Returned
         {| success := false;
            locked := false;
            remainingAttempts := 4;
            lockoutSeconds := None;
            updatedEncryptedData :=
              PinService.okValue
                (PinService.encryptPinData
                   (spreadWith pinData "lockout"
                      (LockoutManager.toJson after))) |},
       withLockout after s).
Proof.
  intros now nowLoad u pin record pinData lockout s
         Hpin Hdec Hlock Hv Hu Hnz Hexp Hneq after.
  apply validatePinFormat_spec in Hpin.
  assert (Hload :
    LockoutManager.loadFromPinData nowLoad (PinService.pinLockout pinData)
    = {| count := 0; lastAttempt := 0; lockedUntil := None;
         lockoutCount := lockoutCount (LockoutManager.ofJson lockout) |}).
  { rewrite Hlock, (loadFromPinData_valid nowLoad lockout Hv). cbv zeta.
    rewrite Hu. unfold truthyOptNum, truthyNum.
    destruct (Z.eqb_spec u 0) as [Hz | _]; [contradiction |].
    destruct (Z.leb_spec u nowLoad) as [_ | Hgt]; [reflexivity | lia]. }
  pose proof (verifyPin_mismatch now nowLoad pin record pinData s Hpin Hdec)
    as Hstep.
  cbv zeta in Hstep. rewrite Hload in Hstep.
  change (LockoutManager.checkAndUpdateExpiry now
            {| count := 0; lastAttempt := 0; lockedUntil := None;
               lockoutCount := lockoutCount (LockoutManager.ofJson lockout) |})
    with {| count := 0; lastAttempt := 0; lockedUntil := None;
            lockoutCount := lockoutCount (LockoutManager.ofJson lockout) |}
    in Hstep.
  specialize (Hstep eq_refl Hneq).
  rewrite recordFailure_below_threshold in Hstep
    by (cbn [count]; unfold_config; lia).
  exact Hstep.
Qed.

End RecordsAndCreation.

(* ========================================================================= *)
(** ** The further facts on the executable platform                           *)
(* ========================================================================= *)

Lemma sample_wrongPin_wellformed : sixDecimalDigits Sample.wrongPin.
Proof. apply validatePinFormat_spec. reflexivity. Defined.

Lemma verifyPin_success_sound_witness :
  let out :=
    PinService.verifyPin (P := Reference.platform)
      Sample.t0 (Sample.t0 + 1) Sample.pin Sample.freshRecord
      PinService.new in
  exists r : VerifyPinResult,
    fst out = Returned r /\
    success r = true /\
    sixDecimalDigits Sample.pin /\
    locked r = false /\
    remainingAttempts r = 5 /\
    isPinVerified (snd out) = true /\
    lockoutManager (snd out) = LockoutManager.createDefaultState.
Proof.
  intros out. destruct out as [c s'] eqn:Hout.
  destruct c as [r | e]; [| vm_compute in Hout; discriminate].
  assert (Hok : success r = true)
    by (vm_compute in Hout; injection Hout as <- _; reflexivity).
  destruct (verifyPin_success_sound (P := Reference.platform)
              Sample.t0 (Sample.t0 + 1) Sample.pin Sample.freshRecord
              PinService.new s' r Hout Hok)
    as (Hsix & _ & Hl & Hr & _ & Hv & Hm).
  exists r. cbn [fst snd].
  exact (conj eq_refl (conj Hok (conj Hsix (conj Hl (conj Hr (conj Hv Hm)))))).
Defined.

Lemma verifyPin_failure_keeps_session_witness :
  let out :=
    PinService.verifyPin (P := Reference.platform)
      (Sample.t0 + 5000) (Sample.t0 + 5001) Sample.wrongPin
      Sample.freshRecord Scenario.verified in
  outline (fst out) = Some (false, false, 4, None) /\
  isPinVerified Scenario.verified = true /\
  isPinVerified (snd out) = isPinVerified Scenario.verified /\
  derivedEncryptionKey (snd out) = derivedEncryptionKey Scenario.verified.
Proof.
  intros out. destruct out as [c s'] eqn:Hout.
  assert (Hc : outline c = Some (false, false, 4, None))
    by (vm_compute in Hout; injection Hout as <- _; reflexivity).
  split; [exact Hc | split; [reflexivity |]].
  destruct (verifyPin_failure_keeps_session (P := Reference.platform)
              (Sample.t0 + 5000) (Sample.t0 + 5001) Sample.wrongPin
              Sample.freshRecord Scenario.verified s' c Hout)
    as [Hkey Hflag].
  { intros r Hr. subst c. cbn [outline] in Hc.
    apply some_eq in Hc. apply (f_equal (fun q => fst (fst (fst q)))) in Hc.
    exact Hc. }
  cbn [snd]. split; [| exact Hkey].
  apply Hflag. left.
  destruct c as [r | exn]; [exists r; reflexivity | discriminate Hc].
Defined.

Lemma verifyPin_throws_iff_witness :
  let record := Sample.recordWithSalt (JNum 5) in
  let out :=
    PinService.verifyPin (P := Reference.platform)
      Sample.t0 (Sample.t0 + 1) Sample.pin record PinService.new in
  (exists pinData : json,
      PinService.decryptPinData (P := Reference.platform) record = Ok pinData /\
      LockoutManager.lockedUntilTyped (PinService.pinLockout pinData) = true /\
      encryptionSaltError (P := Reference.platform) pinData
        = Some "TypeError") /\
  fst out = Threw "TypeError" /\
  snd out
  = withVerified true
      (withLockout LockoutManager.createDefaultState PinService.new).
Proof.
  intros record out.
  set (pinData :=
         JObj [("hash", JStr (toBase64 (Platform := Reference.platform)
                                (PinService.hashPin (P := Reference.platform)
                                   Sample.pin Sample.hashSalt)));
               ("salt", JStr (toBase64 (Platform := Reference.platform)
                                Sample.hashSalt));
               ("encryptionSalt", JNum 5)]).
  assert (Hdec : PinService.decryptPinData (P := Reference.platform) record
                 = Ok pinData) by (vm_compute; reflexivity).
  assert (Htyped : LockoutManager.lockedUntilTyped
                     (PinService.pinLockout pinData) = true)
    by reflexivity.
  assert (Herr : encryptionSaltError (P := Reference.platform) pinData
                 = Some "TypeError") by reflexivity.
  split; [exists pinData; repeat split; assumption |].
  destruct (verifyPin_throws_iff (P := Reference.platform)
              Sample.t0 (Sample.t0 + 1) Sample.pin record pinData
              PinService.new "TypeError" Hdec Htyped)
    as (Hiff & _ & Hstate).
  assert (Hsame : fromBase64 (Platform := Reference.platform)
                    (PinService.pinHash pinData)
                  = PinService.hashPin (P := Reference.platform) Sample.pin
                      (fromBase64 (Platform := Reference.platform)
                         (PinService.pinSalt pinData)))
    by (vm_compute; reflexivity).
  assert (Hthrew : fst out = Threw "TypeError").
  { apply Hiff. split; [exact sample_pin_wellformed |].
    split; [vm_compute; reflexivity |].
    right. split; [exact Hsame | exact Herr]. }
  split; [exact Hthrew |].
  apply Hstate; [exact Hthrew | exact Hsame].
Defined.

Lemma verifyPin_result_shape_witness :
  let out :=
    PinService.verifyPin (P := Reference.platform)
      (Sample.t0 + 5000) (Sample.t0 + 5001) Sample.pin
      (Sample.recordWith Scenario.firstLockout) PinService.new in
  exists r : VerifyPinResult,
    fst out = Returned r /\
    locked r = true /\
    lockoutSeconds r = Some 595 /\
    (locked r = true <-> lockoutSeconds r <> None) /\
    (locked r = true -> success r = false /\ remainingAttempts r = 0).
Proof.
  intros out. destruct out as [c s'] eqn:Hout.
  destruct c as [r | e]; [| vm_compute in Hout; discriminate].
  destruct (verifyPin_result_shape (P := Reference.platform)
              (Sample.t0 + 5000) (Sample.t0 + 5001) Sample.pin
              (Sample.recordWith Scenario.firstLockout) PinService.new s' r
              Hout) as (Hiff & Hlocked & _).
  exists r. cbn [fst].
  split; [reflexivity |].
  split; [vm_compute in Hout; injection Hout as <- _; reflexivity |].
  split; [vm_compute in Hout; injection Hout as <- _; reflexivity |].
  split; assumption.
Defined.

Lemma verifyPin_updated_record_witness :
  let out :=
    PinService.verifyPin (P := Reference.platform)
      Sample.t0 (Sample.t0 + 1) Sample.wrongPin Sample.freshRecord
      PinService.new in
  exists (r : VerifyPinResult) (updated : string) (pinData : json),
    fst out = Returned r /\
    updatedEncryptedData r = Some updated /\
    PinService.decryptPinData (P := Reference.platform) Sample.freshRecord
      = Ok pinData /\
    PinService.encryptPinData (P := Reference.platform)
      (spreadWith pinData "lockout"
         (LockoutManager.toJson (lockoutManager (snd out)))) = Ok updated /\
    get (spreadWith pinData "lockout"
           (LockoutManager.toJson (lockoutManager (snd out)))) "hash"
      = get pinData "hash" /\
    lockoutManager (snd out)
      = {| count := 1; lastAttempt := Sample.t0;
           lockedUntil := None; lockoutCount := 0 |}.
Proof.
  intros out. destruct out as [c s'] eqn:Hout.
  destruct c as [r | e]; [| vm_compute in Hout; discriminate].
  destruct (updatedEncryptedData r) as [updated |] eqn:Hup;
    [| vm_compute in Hout; injection Hout as <- _; discriminate].
  destruct (verifyPin_updated_record (P := Reference.platform)
              Sample.t0 (Sample.t0 + 1) Sample.wrongPin Sample.freshRecord
              updated PinService.new s' r Hout Hup)
    as (pinData & Hdec & Henc & _ & Hother & _).
  exists r, updated, pinData. cbn [fst snd].
  split; [reflexivity | split; [exact Hup | split; [exact Hdec |]]].
  split; [exact Henc |].
  split; [apply Hother; discriminate |].
  vm_compute in Hout. injection Hout as _ <-. reflexivity.
Defined.


Lemma getLockoutStatus_locked_predicts_verifyPin_witness :
  let now := Sample.t0 + 5000 in
  let nowLoad := Sample.t0 + 5001 in
  let record := Sample.recordWith Scenario.firstLockout in
  let queried :=
    PinService.getLockoutStatus (P := Reference.platform)
      nowLoad now now (Some record) PinService.new in
  fst queried
    = {| statusLocked := true;
         statusLockoutSeconds := Some 595;
         statusRemainingAttempts := 0 |} /\
  PinService.verifyPin (P := Reference.platform)
    now nowLoad Sample.pin record Scenario.verified
  = (Returned {| success := false;
                 locked := true;
                 remainingAttempts := 0;
                 lockoutSeconds := Some 595;
                 updatedEncryptedData := None |},
     withLockout Scenario.firstLockout Scenario.verified).
Proof.
  intros now nowLoad record queried.
  assert (Hq : fst queried
               = {| statusLocked := true;
                    statusLockoutSeconds := Some 595;
                    statusRemainingAttempts := 0 |})
    by (vm_compute; reflexivity).
  split; [exact Hq |].
  pose proof (getLockoutStatus_locked_predicts_verifyPin
                (P := Reference.platform)
                now nowLoad Sample.pin record
                (PinService.newPinData (P := Reference.platform)
                   (PinService.hashPin (P := Reference.platform)
                      Sample.pin Sample.hashSalt)
                   Sample.hashSalt Sample.encryptionSalt
                   Scenario.firstLockout)
                Scenario.verified PinService.new sample_pin_wellformed)
    as H.
  cbv zeta in H. fold queried in H.
  assert (Hdec : PinService.decryptPinData (P := Reference.platform) record
                 = Ok (PinService.newPinData (P := Reference.platform)
                         (PinService.hashPin (P := Reference.platform)
                            Sample.pin Sample.hashSalt)
                         Sample.hashSalt Sample.encryptionSalt
                         Scenario.firstLockout))
    by (vm_compute; reflexivity).
  assert (Hlocked : statusLocked (fst queried) = true)
    by (rewrite Hq; reflexivity).
  rewrite (H Hdec Hlocked), Hq.
  cbn [statusRemainingAttempts statusLockoutSeconds].
  assert (Hstate : lockoutManager (snd queried) = Scenario.firstLockout)
    by (vm_compute; reflexivity).
  rewrite Hstate. reflexivity.
Defined.

Lemma verifyPin_mismatch_consumes_one_attempt_witness :
  let now := Sample.t0 + 5000 in
  let nowLoad := Sample.t0 + 5001 in
  let carried := {| count := 3; lastAttempt := Sample.t0;
                    lockedUntil := None; lockoutCount := 0 |} in
  let record := Sample.recordWith carried in
  let status :=
    fst (PinService.getLockoutStatus (P := Reference.platform)
           nowLoad now now (Some record) PinService.new) in
  statusLocked status = false /\
  statusRemainingAttempts status = 2 /\
  exists (r : VerifyPinResult) (s' : PinServiceState),
    PinService.verifyPin (P := Reference.platform)
      now nowLoad Sample.wrongPin record PinService.new = (Returned r, s') /\
    success r = false /\
    locked r = false /\
    remainingAttempts r = 1 /\
    count (lockoutManager s') = 4.
Proof.
  intros now nowLoad carried record status.
  assert (Hfree : statusLocked status = false) by (vm_compute; reflexivity).
  assert (Hk : statusRemainingAttempts status = 2) by (vm_compute; reflexivity).
  split; [exact Hfree | split; [exact Hk |]].
  pose proof (verifyPin_mismatch_consumes_one_attempt
                (P := Reference.platform)
                now nowLoad Sample.wrongPin record
                (PinService.newPinData (P := Reference.platform)
                   (PinService.hashPin (P := Reference.platform)
                      Sample.pin Sample.hashSalt)
                   Sample.hashSalt Sample.encryptionSalt carried)
                PinService.new PinService.new sample_wrongPin_wellformed)
    as H.
  cbv zeta in H. fold status in H. rewrite Hk in H.
  apply H.
  - vm_compute. reflexivity.
  - exact Hfree.
  - vm_compute. reflexivity.
Defined.

Lemma getLockoutStatus_unreadable_record_witness :
  "zz" <> EmptyString /\
  isOk (PinService.decryptPinData (P := Reference.platform) "zz") = false /\
  PinService.getLockoutStatus (P := Reference.platform)
    Sample.t0 Sample.t0 Sample.t0 (Some "zz") Scenario.verified
  = ({| statusLocked := true;
        statusLockoutSeconds := Some 3600;
        statusRemainingAttempts := 0 |},
     Scenario.verified).
Proof.
  assert (Hne : "zz" <> EmptyString) by discriminate.
  split; [exact Hne | split; [reflexivity |]].
  exact (getLockoutStatus_unreadable_record (P := Reference.platform)
           Sample.t0 Sample.t0 Sample.t0 "zz" Scenario.verified Hne eq_refl).
Defined.

Lemma session_and_stateless_modes_agree_witness :
  let out :=
    PinService.verifyPin (P := Reference.platform)
      Sample.t0 (Sample.t0 + 1) Sample.pin Sample.freshRecord
      PinService.new in
  let es := toBase64 (Platform := Reference.platform) Sample.encryptionSalt in
  outline (fst out) = Some (true, false, 5, None) /\
  PinService.getEncryptionSalt (P := Reference.platform) Sample.freshRecord
    = Some (JStr es) /\
  (forall (iv : Buffer) (data : string),
      PinService.encryptWithVerifiedKey (P := Reference.platform)
        iv data (snd out)
      = PinService.encryptWithPin (P := Reference.platform)
          iv data Sample.pin es) /\
  (forall blob : string,
      PinService.decryptWithVerifiedKey (P := Reference.platform)
        blob (snd out)
      = PinService.decryptWithPin (P := Reference.platform)
          blob Sample.pin es).
Proof.
  intros out es. destruct out as [c s'] eqn:Hout.
  destruct c as [r | e]; [| vm_compute in Hout; discriminate].
  assert (Hok : success r = true)
    by (vm_compute in Hout; injection Hout as <- _; reflexivity).
  assert (Hsalt : PinService.getEncryptionSalt (P := Reference.platform)
                    Sample.freshRecord = Some (JStr es))
    by (vm_compute; reflexivity).
  split; [vm_compute in Hout; injection Hout as <- _; reflexivity |].
  split; [exact Hsalt |].
  exact (session_and_stateless_modes_agree (P := Reference.platform)
           Sample.t0 (Sample.t0 + 1) Sample.pin Sample.freshRecord es
           PinService.new s' r Hout Hok Hsalt).
Defined.

Lemma encryptPinData_decryptPinData_witness :
  let pinData :=
    PinService.newPinData (P := Reference.platform)
      (PinService.hashPin (P := Reference.platform) Sample.pin Sample.hashSalt)
      Sample.hashSalt Sample.encryptionSalt Scenario.firstLockout in
  exists record : string,
    PinService.encryptPinData (P := Reference.platform) pinData = Ok record /\
    PinService.decryptPinData (P := Reference.platform) record = Ok pinData.
Proof.
  intros pinData.
  destruct (PinService.encryptPinData (P := Reference.platform) pinData)
    as [record | e] eqn:Henc; [| vm_compute in Henc; discriminate].
  exists record. split; [reflexivity |].
  destruct (encryptString (Platform := Reference.platform)
              (JSON_stringify (Platform := Reference.platform) pinData))
    as [cipher |] eqn:Hseal; [| vm_compute in Hseal; discriminate].
  assert (Hopen : decryptString (Platform := Reference.platform) cipher
                  = Some (JSON_stringify (Platform := Reference.platform)
                            pinData)).
  { cbn [encryptString Reference.platform] in Hseal.
    unfold Reference.sealText in Hseal. injection Hseal as <-.
    cbn [decryptString Reference.platform Reference.unsealText].
    rewrite string_of_list_byte_of_string. reflexivity. }
  rewrite (encryptPinData_decryptPinData (P := Reference.platform)
             pinData record cipher Henc Hseal
             (reference_decode_encode cipher) Hopen).
  - assert (Ht : truthyStr record = true)
      by (vm_compute in Henc; injection Henc as <-; reflexivity).
    rewrite Ht. reflexivity.
  - vm_compute. reflexivity.
Defined.

Lemma verifyPin_after_served_lock_witness :
  let now := Sample.t0 + 600000 in
  let nowLoad := Sample.t0 + 600001 in
  let record := Sample.recordWith Scenario.firstLockout in
  sixDecimalDigits Sample.wrongPin /\
  Sample.t0 + 600000 <= nowLoad /\
  exists updated : option string,
    PinService.verifyPin (P := Reference.platform)
      now nowLoad Sample.wrongPin record PinService.new
    = (Returned {| success := false;
                   locked := false;
                   remainingAttempts := 4;
                   lockoutSeconds := None;
                   updatedEncryptedData := updated |},
       withLockout {| count := 1; lastAttempt := now;
                      lockedUntil := None; lockoutCount := 1 |}
         PinService.new).
Proof.
  intros now nowLoad record.
  assert (Hexp : Sample.t0 + 600000 <= nowLoad) by (vm_compute; discriminate).
  split; [exact sample_wrongPin_wellformed | split; [exact Hexp |]].
  eexists.
  apply (verifyPin_after_served_lock (P := Reference.platform)
           now nowLoad (Sample.t0 + 600000) Sample.wrongPin record
           (PinService.newPinData (P := Reference.platform)
              (PinService.hashPin (P := Reference.platform)
                 Sample.pin Sample.hashSalt)
              Sample.hashSalt Sample.encryptionSalt Scenario.firstLockout)
           (LockoutManager.toJson Scenario.firstLockout) PinService.new).
  - exact sample_wrongPin_wellformed.
  - vm_compute. reflexivity.
  - reflexivity.
  - reflexivity.
  - reflexivity.
  - vm_compute. discriminate.
  - exact Hexp.
  - vm_compute. reflexivity.
Defined.

Lemma encryptWithVerifiedKey_decryptWithVerifiedKey_witness :
  exists blob : string,
    Z.of_nat (List.length Sample.iv) = encryption.ivLength /\
    PinService.hasEncryptionKey Scenario.verified = true /\
    PinService.encryptWithVerifiedKey (P := Reference.platform)
      Sample.iv "session cookie" Scenario.verified = Some blob /\
    PinService.decryptWithVerifiedKey (P := Reference.platform)
      blob Scenario.verified = Some "session cookie".
Proof.
  destruct (PinService.encryptWithVerifiedKey (P := Reference.platform)
              Sample.iv "session cookie" Scenario.verified)
    as [blob |] eqn:Henc; [| vm_compute in Henc; discriminate].
  exists blob.
  split; [reflexivity | split; [vm_compute; reflexivity |]].
  split; [reflexivity |].
  exact (encryptWithVerifiedKey_decryptWithVerifiedKey
           (L := reference_cipher_laws)
           Sample.iv "session cookie" blob Scenario.verified eq_refl eq_refl
           Henc).
Defined.

Lemma createPin_then_verifyPin_fresh_witness :
  let created :=
    PinService.createPinHash (P := Reference.platform)
      Sample.hashSalt Sample.encryptionSalt Sample.pin PinService.new in
  exists (record : string) (r : VerifyPinResult) (s2 : PinServiceState),
    fst created = Some record /\
    PinService.verifyPin (P := Reference.platform)
      Sample.t0 (Sample.t0 + 1) Sample.pin record (snd created)
    = (Returned r, s2) /\
    success r = true /\
    locked r = false /\
    remainingAttempts r = rateLimit.maxAttempts.
Proof.
  intros created. destruct created as [[record |] s1] eqn:Hcreated;
    [| vm_compute in Hcreated; discriminate].
  destruct (createPin_then_verifyPin_fresh (P := Reference.platform)
              Sample.t0 (Sample.t0 + 1) Sample.hashSalt Sample.encryptionSalt
              Sample.pin record PinService.new s1 eq_refl
              (reference_decode_encode _) (reference_decode_encode _)
              Hcreated) as (r & s2 & Hcall & Hok & Hl & Hr).
  { vm_compute in Hcreated. injection Hcreated as <- _.
    vm_compute. reflexivity. }
  exists record, r, s2. cbn [fst snd].
  exact (conj eq_refl (conj Hcall (conj Hok (conj Hl Hr)))).
Defined.
